(** * githubapp: installation-token issuance with a two-level cache

    A shallow embedding of [app.go] (package [githubapp]).  The Go methods of
    [*App] become state-passing functions over a record that holds the
    fields of the [App] struct, the store of [installation] objects that the
    [[]*installation] slice points into, the state of the outside world
    (remote GitHub API and wall clock) and a log of the remote calls made. *)

From Stdlib Require Import ZArith Ascii String.
From stdpp Require Import base list strings.

Local Open Scope Z_scope.

(** ** Data received from and sent to the GitHub API *)

(** [github.ListOptions]; [Page = 0] is the zero value of an unset page. *)
Record ListOptions := mkListOptions { Page : Z; PerPage : Z }.

(** The part of [github.Response] that the code reads. *)
Record Response := mkResponse { NextPage : Z }.

(** A [*github.Installation] as the code observes it, through [GetID()] and
    [Account.GetLogin()]. *)
Record ghInstallation := mkGhInstallation { GetID : Z; GetLogin : string }.

(** A [*github.Repository] as the code observes it, through [GetID()] and
    [GetName()]. *)
Record ghRepository := mkGhRepository { GetRepoID : Z; GetName : string }.

(** [github.InstallationPermissions]: the permissions that are set, by name.
    [&github.InstallationPermissions{}] is the empty list. *)
Definition InstallationPermissions := list (string * string).

(** [github.InstallationTokenOptions].  A nil slice and an empty slice of
    repository IDs are both the empty list. *)
Record InstallationTokenOptions := mkTokenOptions {
  RepositoryIDs : list Z;
  Permissions : InstallationPermissions
}.

(** [github.InstallationToken] as the code observes it, through [GetToken()]. *)
Record InstallationToken := mkToken { GetToken : string }.

(** What a remote operation hands back: a value, or an error of the
    collaborator, of which only its message is known. *)
Inductive reply (A : Type) :=
| Served (a : A)
| Refused (msg : string).
Arguments Served {A} a.
Arguments Refused {A} msg.

(** ** Errors *)

(** Go [error] values that flow through the package: the package's own
    [ErrInstallationNotFound], errors returned by the collaborators, and
    the values built by [fmt.Errorf]. *)
Inductive error :=
| ErrInstallationNotFound (key : string)
| RemoteError (msg : string)
| Errorf (msg : string).

(** The [Error()] method; for [ErrInstallationNotFound] it is
    [fmt.Sprintf("installation not found: '%s'", string(e))]. *)
Definition Error (e : error) : string :=
  match e with
  | ErrInstallationNotFound key => "installation not found: '" +:+ key +:+ "'"
  | RemoteError msg => msg
  | Errorf msg => msg
  end.

(** ** strings.ToLower

    Exact on ASCII input, which is what GitHub logins are: the bytes
    ['A'..'Z'] are mapped to ['a'..'z'] and every other byte is kept.  On
    a string with a byte of 128 or more [strings.ToLower] also lowers the
    Unicode letters, which this function does not: a statement that needs
    the lowered value of a login is made for ASCII logins. *)
Definition lowerByte (c : ascii) : ascii :=
  let n := nat_of_ascii c in
  if (Nat.leb 65 n && Nat.leb n 90)%bool then ascii_of_nat (n + 32)%nat else c.

Fixpoint ToLower (s : string) : string :=
  match s with
  | EmptyString => EmptyString
  | String c r => String (lowerByte c) (ToLower r)
  end.

(** ** Time

    A [time.Time] is the number of nanoseconds since the zero [Time]; a
    [time.Duration] is a number of nanoseconds. *)
Definition Time := Z.
Definition zeroTime : Time := 0.
Definition Add (t : Time) (d : Z) : Time := t + d.
Definition After (t u : Time) : bool := u <? t.

(** [1 * time.Minute]. *)
Definition Minute : Z := 60 * 1000000000.

(** ** The cache *)

Record repository := mkRepository { repoID : Z; Name : string }.

Record installation := mkInstallation {
  ID : Z;
  Owner : string;
  Repositories : list repository;
  RepositoriesUpdatedAt : Time
}.

(** Lines 117-120: [&installation{ID: i.GetID(), Owner:
    strings.ToLower(i.Account.GetLogin())}]; the other fields are zero. *)
Definition newInstallation (i : ghInstallation) : installation :=
  mkInstallation (GetID i) (ToLower (GetLogin i)) [] zeroTime.

(** Lines 180-183: [&repository{ID: r.GetID(), Name: r.GetName()}]. *)
Definition newRepository (r : ghRepository) : repository :=
  mkRepository (GetRepoID r) (GetName r).

(** A [*installation]: [None] is [nil], [Some p] the address of an object in
    the store. *)
Definition ptr := nat.

Global Instance installation_inhabited : Inhabited installation :=
  populate (mkInstallation 0 "" [] zeroTime).

(** ** The collaborators

    The [AppsAPI] interface ([a.client]), the listing client that
    [a.installsClientFactory] builds from a token (its [ListRepos]), and
    [time.Now].  Each is a transition of the outside world [W], so a reply
    may depend on everything that happened before. *)
Class Collaborators (W : Type) := {
  time_Now : W -> Time * W;
  client_ListInstallations :
    ListOptions -> W -> reply (list ghInstallation * Response) * W;
  client_CreateInstallationToken :
    Z -> InstallationTokenOptions -> W -> reply InstallationToken * W;
  client_ListRepos :
    string -> ListOptions -> W -> reply (list ghRepository * Response) * W
}.

(** A remote call as it is logged: the request and the reply to it. *)
Inductive Event :=
| EvListInstallations (opt : ListOptions)
    (r : reply (list ghInstallation * Response))
| EvCreateInstallationToken (id : Z) (opt : InstallationTokenOptions)
    (r : reply InstallationToken)
| EvListRepos (token : string) (opt : ListOptions)
    (r : reply (list ghRepository * Response)).

(** How a run ends when it does not return: a nil-pointer dereference, a
    [for] loop that was cut off by the fuel, or a call chain cut off by the
    depth bound. *)
Inductive halt := Panic | OutOfFuel | OutOfDepth.

Inductive outcome (A : Type) :=
| Ok (a : A)
| Err (e : error)
| Halt (h : halt).
Arguments Ok {A} a.
Arguments Err {A} e.
Arguments Halt {A} h.

Section App.

Context {W : Type} `{Collaborators W}.

(** The [App] struct ([installs], [installsUpdatedAt], [updateInterval];
    [client] and [installsClientFactory] are the [Collaborators]), the
    store its installation pointers refer to, the world, and the log of
    remote calls, oldest first. *)
Record State := mkState {
  installs : list ptr;
  installsUpdatedAt : Time;
  updateInterval : Z;
  heap : list installation;
  world : W;
  calls : list Event
}.

Definition set_world (w : W) (s : State) : State :=
  mkState (installs s) (installsUpdatedAt s) (updateInterval s)
          (heap s) w (calls s).

Definition log_call (c : Event) (s : State) : State :=
  mkState (installs s) (installsUpdatedAt s) (updateInterval s)
          (heap s) (world s) (calls s ++ [c]).

Definition set_heap (h : list installation) (s : State) : State :=
  mkState (installs s) (installsUpdatedAt s) (updateInterval s)
          h (world s) (calls s).

(** [a.installs, a.installsUpdatedAt = l, t]. *)
Definition set_installs (l : list ptr) (t : Time) (s : State) : State :=
  mkState l t (updateInterval s) (heap s) (world s) (calls s).

(** [New(client)]. *)
Definition New (w : W) : State := mkState [] zeroTime (1 * Minute) [] w [].

(** Reading through a pointer. *)
Definition deref (h : list installation) (p : ptr) : installation :=
  default inhabitant (h !! p).

(** ** The monad of the methods *)

Definition M (A : Type) : Type := State -> outcome A * State.

Definition ret {A} (a : A) : M A := fun s => (Ok a, s).
Definition throw {A} (e : error) : M A := fun s => (Err e, s).
Definition stop {A} (h : halt) : M A := fun s => (Halt h, s).

Definition bind {A B} (m : M A) (k : A -> M B) : M B := fun s =>
  match m s with
  | (Ok a, s') => k a s'
  | (Err e, s') => (Err e, s')
  | (Halt h, s') => (Halt h, s')
  end.

Notation "'let*' x ':=' m 'in' k" := (bind m (fun x => k))
  (at level 10, x name, m at level 100, k at level 200, only parsing).

Definition get : M State := fun s => (Ok s, s).

(** [time.Now()]. *)
Definition Now : M Time := fun s =>
  let (t, w) := time_Now (world s) in (Ok t, set_world w s).

(** The three remote calls; each is made and logged with its reply. *)
Definition ListInstallations (opt : ListOptions)
  : M (reply (list ghInstallation * Response)) := fun s =>
  let (r, w) := client_ListInstallations opt (world s) in
  (Ok r, set_world w (log_call (EvListInstallations opt r) s)).

Definition MintToken (id : Z) (opt : InstallationTokenOptions)
  : M (reply InstallationToken) := fun s =>
  let (r, w) := client_CreateInstallationToken id opt (world s) in
  (Ok r, set_world w (log_call (EvCreateInstallationToken id opt r) s)).

Definition ListRepos (token : string) (opt : ListOptions)
  : M (reply (list ghRepository * Response)) := fun s =>
  let (r, w) := client_ListRepos token opt (world s) in
  (Ok r, set_world w (log_call (EvListRepos token opt r) s)).

(** [&installation{...}]: a new object in the store. *)
Definition alloc (i : installation) : M ptr := fun s =>
  (Ok (length (heap s)), set_heap (heap s ++ [i]) s).

(** ** updateInstallations *)

(** Lines 116-121: the inner [for _, i := range list] with its [append];
    [lst] is the page [list]. *)
Fixpoint appendInstallations (installs : list ptr) (lst : list ghInstallation)
  : M (list ptr) :=
  match lst with
  | [] => ret installs
  | i :: rest =>
      let* p := alloc (newInstallation i) in
      appendInstallations (installs ++ [p]) rest
  end.

(** Lines 111-126: the [for] loop, one page per iteration. *)
Fixpoint installationsLoop (fuel : nat) (installs : list ptr)
  (listOptions : ListOptions) : M (list ptr) :=
  match fuel with
  | O => stop OutOfFuel
  | S fuel' =>
      let* r := ListInstallations listOptions in
      match r with
      | Refused msg => throw (RemoteError msg)
      | Served (lst, response) =>
          let* installs' := appendInstallations installs lst in
          if NextPage response =? 0 then ret installs'
          else installationsLoop fuel' installs'
                 (mkListOptions (NextPage response) (PerPage listOptions))
      end
  end.

Definition updateInstallations (fuel : nat) : M unit :=
  let* a := get in
  let* now := Now in
  if After (Add (installsUpdatedAt a) (updateInterval a)) now then ret tt
  else
    let* installs := installationsLoop fuel [] (mkListOptions 0 10) in
    let* now' := Now in
    fun s => (Ok tt, set_installs installs now' s).

(** ** getInstallationID *)

(** Lines 94-98: the first installation whose [Owner] is [owner]. *)
Fixpoint findInstallationID (h : list installation) (owner : string)
  (l : list ptr) : option Z :=
  match l with
  | [] => None
  | p :: rest =>
      if decide (Owner (deref h p) = owner) then Some (ID (deref h p))
      else findInstallationID h owner rest
  end.

Definition getInstallationID (fuel : nat) (owner : string) : M Z :=
  let* _ := updateInstallations fuel in
  let* a := get in
  match findInstallationID (heap a) owner (installs a) with
  | Some id => ret id
  | None => throw (ErrInstallationNotFound owner)
  end.

(** ** updateRepositories, getRepositoryID and CreateInstallationToken

    The three call each other; [CreateInstallationToken] is passed to the
    other two as [mint] and the knot is tied below by a bound on the depth
    of the call chain. *)

(** Lines 152-157: the last installation whose [Owner] is [owner], [nil]
    when there is none. *)
Fixpoint lastInstallation (h : list installation) (owner : string)
  (i : option ptr) (l : list ptr) : option ptr :=
  match l with
  | [] => i
  | ii :: rest =>
      lastInstallation h owner
        (if decide (Owner (deref h ii) = owner) then Some ii else i) rest
  end.

(** Lines 179-184. *)
Fixpoint appendRepositories (repositories : list repository)
  (lst : list ghRepository) : list repository :=
  match lst with
  | [] => repositories
  | r :: rest =>
      appendRepositories (repositories ++ [newRepository r]) rest
  end.

(** Lines 174-189. *)
Fixpoint repositoriesLoop (fuel : nat) (token : string)
  (repositories : list repository) (listOptions : ListOptions)
  : M (list repository) :=
  match fuel with
  | O => stop OutOfFuel
  | S fuel' =>
      let* r := ListRepos token listOptions in
      match r with
      | Refused msg => throw (RemoteError msg)
      | Served (lst, response) =>
          let repositories' := appendRepositories repositories lst in
          if NextPage response =? 0 then ret repositories'
          else repositoriesLoop fuel' token repositories'
                 (mkListOptions (NextPage response) (PerPage listOptions))
      end
  end.

(** Line 191: [i.Repositories, i.RepositoriesUpdatedAt = repositories, t]
    writes through the pointer [i]. *)
Definition storeRepositories (i : ptr) (repositories : list repository)
  (t : Time) : M unit := fun s =>
  let o := deref (heap s) i in
  (Ok tt, set_heap (<[i := mkInstallation (ID o) (Owner o) repositories t]> (heap s)) s).

Section Bodies.

Variable mint : string -> list string -> InstallationPermissions -> M InstallationToken.

Definition updateRepositories_body (fuel : nat) (owner : string) : M unit :=
  let* a := get in
  match lastInstallation (heap a) owner None (installs a) with
  | None => stop Panic
  | Some i =>
      let* now := Now in
      if After (Add (RepositoriesUpdatedAt (deref (heap a) i)) (updateInterval a)) now
      then ret tt
      else
        let* token := mint owner [] [] in
        let* repositories :=
          repositoriesLoop fuel (GetToken token) [] (mkListOptions 0 100) in
        let* now' := Now in
        storeRepositories i repositories now'
  end.

(** Lines 139-143: the first repository named [repo]. *)
Fixpoint findRepository (repo : string) (l : list repository) : option Z :=
  match l with
  | [] => None
  | r :: rest =>
      if decide (Name r = repo) then Some (repoID r) else findRepository repo rest
  end.

(** Lines 137-145: every installation of [owner] is searched, in order. *)
Fixpoint findRepositoryID (h : list installation) (owner repo : string)
  (l : list ptr) : option Z :=
  match l with
  | [] => None
  | p :: rest =>
      if decide (Owner (deref h p) = owner) then
        match findRepository repo (Repositories (deref h p)) with
        | Some id => Some id
        | None => findRepositoryID h owner repo rest
        end
      else findRepositoryID h owner repo rest
  end.

Definition getRepositoryID_body (fuel : nat) (owner repo : string) : M Z :=
  let* _ := updateRepositories_body fuel owner in
  let* a := get in
  match findRepositoryID (heap a) owner repo (installs a) with
  | Some id => ret id
  | None => throw (ErrInstallationNotFound (owner +:+ "/" +:+ repo))
  end.

(** Lines 75-81: the loop over [repos], appending to
    [tokenOptions.RepositoryIDs]. *)
Fixpoint resolveRepositories (fuel : nat) (owner : string)
  (ids : list Z) (repos : list string) : M (list Z) :=
  match repos with
  | [] => ret ids
  | repo :: rest =>
      let* id := getRepositoryID_body fuel owner repo in
      resolveRepositories fuel owner (ids ++ [id]) rest
  end.

Definition CreateInstallationToken_body (fuel : nat) (owner : string)
  (repos : list string) (permissions : InstallationPermissions)
  : M InstallationToken :=
  let* installationID := getInstallationID fuel owner in
  let* ids := resolveRepositories fuel owner [] repos in
  let* r := MintToken installationID (mkTokenOptions ids permissions) in
  match r with
  | Refused msg => throw (Errorf ("failed to create token: " +:+ Error (RemoteError msg)))
  | Served installationToken => ret installationToken
  end.

End Bodies.

(** The public entry point.  [depth] bounds the chain
    [CreateInstallationToken -> getRepositoryID -> updateRepositories ->
    CreateInstallationToken]. *)
Fixpoint CreateInstallationToken (depth fuel : nat) (owner : string)
  (repos : list string) (permissions : InstallationPermissions)
  : M InstallationToken :=
  match depth with
  | O => stop OutOfDepth
  | S depth' =>
      CreateInstallationToken_body (CreateInstallationToken depth' fuel)
        fuel owner repos permissions
  end.

Definition updateRepositories (depth fuel : nat) (owner : string) : M unit :=
  updateRepositories_body (CreateInstallationToken depth fuel) fuel owner.

Definition getRepositoryID (depth fuel : nat) (owner repo : string) : M Z :=
  getRepositoryID_body (CreateInstallationToken depth fuel) fuel owner repo.

End App.

Arguments State : clear implicits.
Arguments mkState {W}.

(** ** A scripted world

    The replies of the collaborators are read off four lists, one per
    operation, front first; an exhausted list refuses (the clock repeats
    its last reading). *)
Record Script := mkScript {
  clock : list Time;
  lastReading : Time;
  installationReplies : list (reply (list ghInstallation * Response));
  tokenReplies : list (reply InstallationToken);
  repositoryReplies : list (reply (list ghRepository * Response))
}.

Definition nextReply {A} (l : list (reply A)) : reply A * list (reply A) :=
  match l with
  | [] => (Refused "script exhausted", [])
  | r :: rest => (r, rest)
  end.

Global Instance scripted : Collaborators Script := {|
  time_Now w :=
    match clock w with
    | [] => (lastReading w, w)
    | t :: rest =>
        (t, mkScript rest t (installationReplies w) (tokenReplies w)
              (repositoryReplies w))
    end;
  client_ListInstallations _ w :=
    let (r, rest) := nextReply (installationReplies w) in
    (r, mkScript (clock w) (lastReading w) rest (tokenReplies w)
          (repositoryReplies w));
  client_CreateInstallationToken _ _ w :=
    let (r, rest) := nextReply (tokenReplies w) in
    (r, mkScript (clock w) (lastReading w) (installationReplies w) rest
          (repositoryReplies w));
  client_ListRepos _ _ w :=
    let (r, rest) := nextReply (repositoryReplies w) in
    (r, mkScript (clock w) (lastReading w) (installationReplies w)
          (tokenReplies w) rest)
|}.

(** The end-to-end scenario: one installation [{7, "Acme"}], one repository
    [{100, "infra"}], at a time well past the zero [Time]. *)
Definition year : Z := 365 * 24 * 60 * Minute.

Definition acmeWorld : Script :=
  mkScript [] (2020 * year)
    [Served ([mkGhInstallation 7 "Acme"], mkResponse 0)]
    [Served (mkToken "bootstrap"); Served (mkToken "scoped")]
    [Served ([mkGhRepository 100 "infra"], mkResponse 0)].

(** A cache that was filled a year before the clock's reading, with one
    installation that is not [acme]'s. *)
Definition staleState (w : Script) : State Script :=
  mkState [0%nat] (2019 * year) (1 * Minute)
    [mkInstallation 1 "old" [mkRepository 5 "r"] (2019 * year)] w [].

(** The second page of installations is refused. *)
Definition secondPageFails : Script :=
  mkScript [] (2020 * year)
    [Served ([mkGhInstallation 7 "Acme"], mkResponse 2); Refused "boom"]
    [] [].

(** Three installations on two pages. *)
Definition twoPages : Script :=
  mkScript [] (2020 * year)
    [Served ([mkGhInstallation 7 "Acme"; mkGhInstallation 8 "Beta"], mkResponse 2);
     Served ([mkGhInstallation 9 "Gamma"], mkResponse 0)]
    [] [].

(** The first page of installations is refused. *)
Definition refusingWorld : Script :=
  mkScript [] (2020 * year) [Refused "boom"] [] [].

(** A cache with installation [42] of [acme] and its repositories
    [{repoA:1, repoB:2, repoC:3}], filled one second before the clock's
    reading. *)
Definition cachedState : State Script :=
  mkState [0%nat] (2020 * year) (1 * Minute)
    [mkInstallation 42 "acme"
       [mkRepository 1 "repoA"; mkRepository 2 "repoB"; mkRepository 3 "repoC"]
       (2020 * year)]
    (mkScript [] (2020 * year + 1000000000) []
       [Served (mkToken "scoped")] [])
    [].

(** A remote that always names a further page of installations. *)
Definition endless : Collaborators unit := {|
  time_Now w := (2020 * year, w);
  client_ListInstallations _ w := (Served ([], mkResponse 1), w);
  client_CreateInstallationToken _ _ w := (Refused "none", w);
  client_ListRepos _ _ w := (Refused "none", w)
|}.

(** * Vocabulary of the statements *)

(** How a pagination loop ends: the remote named no further page, the
    remote refused a page, or the loop was cut off by the fuel. *)
Inductive ending := Finished | Failed (msg : string) | CutOff.

Definition endOutcome {A} (e : ending) (a : A) : outcome A :=
  match e with
  | Finished => Ok a
  | Failed msg => Err (RemoteError msg)
  | CutOff => Halt OutOfFuel
  end.

(** [pageTrace ev opt evs pages e]: [evs] is what a pagination loop that
    starts with the request [opt] logs, [pages] are the pages it was
    served, in order, and [e] is how it ended.  Every request after the
    first asks for the page the previous reply named, with the same page
    size; only the last reply can be a refusal. *)
Inductive pageTrace {A} (ev : ListOptions -> reply (list A * Response) -> Event)
  : ListOptions -> list Event -> list (list A) -> ending -> Prop :=
| pageTrace_cut opt : pageTrace ev opt [] [] CutOff
| pageTrace_refused opt msg :
    pageTrace ev opt [ev opt (Refused msg)] [] (Failed msg)
| pageTrace_last opt lst response :
    NextPage response = 0 ->
    pageTrace ev opt [ev opt (Served (lst, response))] [lst] Finished
| pageTrace_next opt lst response evs pages e :
    NextPage response <> 0 ->
    pageTrace ev (mkListOptions (NextPage response) (PerPage opt)) evs pages e ->
    pageTrace ev opt (ev opt (Served (lst, response)) :: evs) (lst :: pages) e.

(** The message of the refusal an event records, if it records one. *)
Definition refusal (ev : Event) : option string :=
  match ev with
  | EvListInstallations _ (Refused msg)
  | EvCreateInstallationToken _ _ (Refused msg)
  | EvListRepos _ _ (Refused msg) => Some msg
  | _ => None
  end.

Definition served (ev : Event) : Prop := refusal ev = None.

(** The error the package hands to its caller for a refused call: the
    error of a list operation as it is, the error of the token request
    through [fmt.Errorf]. *)
Definition propagated (ev : Event) (msg : string) : error :=
  match ev with
  | EvCreateInstallationToken _ _ _ => Errorf ("failed to create token: " +:+ msg)
  | _ => RemoteError msg
  end.

Definition failure {A} (o : outcome A) : option error :=
  match o with Err e => Some e | _ => None end.

Definition halted {A} (o : outcome A) : option halt :=
  match o with Halt h => Some h | _ => None end.

(** [faithful evs f]: no call of [evs] was refused, or only the last one
    was and [f] is the error propagated for it. *)
Definition faithful (evs : list Event) (f : option error) : Prop :=
  Forall served evs \/
  exists pre ev msg,
    evs = pre ++ [ev] /\ Forall served pre /\ refusal ev = Some msg /\
    f = Some (propagated ev msg).

(** [propagates evs f]: a refused call of [evs] is the last call of [evs],
    and [f] is the error propagated for it. *)
Definition propagates (evs : list Event) (f : option error) : Prop :=
  forall pre ev post msg,
    evs = pre ++ ev :: post -> refusal ev = Some msg ->
    post = [] /\ f = Some (propagated ev msg).

(** [annotates e msg]: the message of [e] is [msg] with some text in front. *)
Definition annotates (e : error) (msg : string) : Prop :=
  exists text, text <> "" /\ Error e = text +:+ msg.

(** What lines 82-86 make of the reply to the token request. *)
Definition mintOutcome (r : reply InstallationToken) : outcome InstallationToken :=
  match r with
  | Served installationToken => Ok installationToken
  | Refused msg => Err (Errorf ("failed to create token: " +:+ msg))
  end.

(** A served page that names a further page. *)
Definition continued (ev : Event) : Prop :=
  match ev with
  | EvListInstallations _ (Served (_, response))
  | EvListRepos _ _ (Served (_, response)) => NextPage response <> 0
  | _ => False
  end.

(** [cutOff fuel evs]: [evs] ends with [fuel] pages in a row that each
    named a further page. *)
Definition cutOff (fuel : nat) (evs : list Event) : Prop :=
  exists pre run, evs = pre ++ run /\ length run = fuel /\ Forall continued run.

(** [haltsWell depth fuel evs x]: a run that did not return was cut off by
    the depth bound, which takes [depth = 0], or by the fuel, after [fuel]
    continued pages; it did not panic. *)
Definition haltsWell (depth fuel : nat) (evs : list Event) (x : option halt) : Prop :=
  forall h, x = Some h ->
    (h = OutOfDepth /\ depth = O) \/ (h = OutOfFuel /\ cutOff fuel evs).

Definition isListInstallations (ev : Event) : Prop :=
  match ev with EvListInstallations _ _ => True | _ => False end.

Definition isListRepos (ev : Event) : Prop :=
  match ev with EvListRepos _ _ _ => True | _ => False end.

Definition isCreateInstallationToken (ev : Event) : Prop :=
  match ev with EvCreateInstallationToken _ _ _ => True | _ => False end.

(** A token request is unscoped when it names no repository and no
    permission, as the one of [updateRepositories] does. *)
Definition unscoped (ev : Event) : Prop :=
  match ev with
  | EvCreateInstallationToken _ opt _ => RepositoryIDs opt = [] /\ Permissions opt = []
  | _ => True
  end.

(** [present h owner l]: among the installations [l] points to, one is
    owned by [owner]. *)
Definition present (h : list installation) (owner : string) (l : list ptr) : Prop :=
  exists p, p ∈ l /\ Owner (deref h p) = owner.

(** The constructors of the two kinds of page events. *)
Class PageEvent {A} (ev : ListOptions -> reply (list A * Response) -> Event) := {
  page_served opt x : refusal (ev opt (Served x)) = None;
  page_refused opt msg : refusal (ev opt (Refused msg)) = Some msg;
  page_propagated opt r msg : propagated (ev opt r) msg = RemoteError msg;
  page_continued opt lst response :
    NextPage response <> 0 -> continued (ev opt (Served (lst, response)));
  page_unscoped opt r : unscoped (ev opt r)
}.

(** [paged fetch opt w pages w']: asked for [opt] and then for each page
    the previous reply named, the remote serves [pages] and names no
    further page after the last; the world goes from [w] to [w']. *)
Inductive paged {W A} (fetch : ListOptions -> W -> reply (list A * Response) * W)
  : ListOptions -> W -> list (list A) -> W -> Prop :=
| paged_last opt w lst response w' :
    fetch opt w = (Served (lst, response), w') ->
    NextPage response = 0 ->
    paged fetch opt w [lst] w'
| paged_next opt w lst response w1 pages w' :
    fetch opt w = (Served (lst, response), w1) ->
    NextPage response <> 0 ->
    paged fetch (mkListOptions (NextPage response) (PerPage opt)) w1 pages w' ->
    paged fetch opt w (lst :: pages) w'.

(** [resolves depth fuel owner s repos ids s']: from [s], the calls of
    [getRepositoryID] for the names [repos], one after the other, return
    the identities [ids] and leave [s']. *)
Inductive resolves {W} `{Collaborators W} (depth fuel : nat) (owner : string)
  : State W -> list string -> list Z -> State W -> Prop :=
| resolves_nil s : resolves depth fuel owner s [] [] s
| resolves_cons s repo id s1 repos ids s' :
    getRepositoryID depth fuel owner repo s = (Ok id, s1) ->
    resolves depth fuel owner s1 repos ids s' ->
    resolves depth fuel owner s (repo :: repos) (id :: ids) s'.

(** The first of the fetched installations whose login, in lower case, is
    [owner]. *)
Fixpoint fetchedFor (owner : string) (lst : list ghInstallation)
  : option ghInstallation :=
  match lst with
  | [] => None
  | i :: rest =>
      if decide (ToLower (GetLogin i) = owner) then Some i
      else fetchedFor owner rest
  end.

(** The installations were fetched a little less than a minute before the
    first reading of the clock and a little more than a minute before the
    second; the repositories of [acme] were never fetched. *)
Definition boundaryState : State Script :=
  mkState [0%nat] (2020 * year) (1 * Minute)
    [mkInstallation 42 "acme" [] zeroTime]
    (mkScript [2020 * year + 59 * 1000000000; 2020 * year + 61 * 1000000000]
       (2020 * year + 61 * 1000000000)
       [Served ([mkGhInstallation 42 "Acme"], mkResponse 0)]
       [Served (mkToken "bootstrap")]
       [Served ([mkGhRepository 1 "repoA"], mkResponse 0)])
    [].

(** The errors [CreateInstallationToken] can return for [owner] and
    [repos]. *)
Definition expectedError (owner : string) (repos : list string) (e : error) : Prop :=
  e = ErrInstallationNotFound owner \/
  (exists repo, repo ∈ repos /\ e = ErrInstallationNotFound (owner +:+ "/" +:+ repo)) \/
  (exists msg, e = RemoteError msg) \/
  (exists msg, e = Errorf ("failed to create token: " +:+ msg)).

(** The invariant of the cache: every pointer of the list of installations
    refers to an object of the store, whose owner is in lower case. *)
Definition cacheInv {W} (s : State W) : Prop :=
  forall p, p ∈ installs s ->
    (p < length (heap s))%nat /\
    ToLower (Owner (deref (heap s) p)) = Owner (deref (heap s) p).

(** The first of the listed repositories whose name is [repo]. *)
Fixpoint listedAs (repo : string) (lst : list ghRepository) : option ghRepository :=
  match lst with
  | [] => None
  | r :: rest => if decide (GetName r = repo) then Some r else listedAs repo rest
  end.

(** A string of bytes below 128, on which [ToLower] is [strings.ToLower]. *)
Fixpoint isASCII (str : string) : bool :=
  match str with
  | EmptyString => true
  | String c r => (Nat.ltb (nat_of_ascii c) 128 && isASCII r)%bool
  end.


(** * Facts *)

Section Facts.

Context {W : Type} `{Collaborators W}.

Implicit Types (s : State W) (h : list installation) (l : list ptr).

(** ** The monad *)

Lemma bind_Ok {A B} (m : M A) (k : A -> M B) s a s1 :
  m s = (Ok a, s1) -> bind m k s = k a s1.
Proof. intros E. unfold bind. now rewrite E. Qed.

Lemma bind_Err {A B} (m : M A) (k : A -> M B) s e s1 :
  m s = (Err e, s1) -> bind m k s = (Err e, s1).
Proof. intros E. unfold bind. now rewrite E. Qed.

Lemma bind_Halt {A B} (m : M A) (k : A -> M B) s x s1 :
  m s = (Halt x, s1) -> bind m k s = (Halt x, s1).
Proof. intros E. unfold bind. now rewrite E. Qed.

Lemma bind_ext {A B} (m : M A) (k1 k2 : A -> M B) s :
  (forall a s1, k1 a s1 = k2 a s1) -> bind m k1 s = bind m k2 s.
Proof. intros E. unfold bind. destruct (m s) as [[a | e | x] s1]; auto. Qed.

(** Every run of [bind m k] is a run of [m] that did not return, or a run
    of [m] that returned followed by a run of [k]. *)
Lemma bind_inv {A B} (m : M A) (k : A -> M B) s o s' :
  bind m k s = (o, s') ->
  (exists a s1, m s = (Ok a, s1) /\ k a s1 = (o, s')) \/
  (exists e, m s = (Err e, s') /\ o = Err e) \/
  (exists x, m s = (Halt x, s') /\ o = Halt x).
Proof.
  unfold bind. destruct (m s) as [[a | e | x] s1]; intros E.
  - left. eauto.
  - right. left. inversion E. eauto.
  - right. right. inversion E. eauto.
Qed.

(** ** The inner loop of [updateInstallations] *)

Lemma appendInstallations_spec (lst : list ghInstallation) l s :
  appendInstallations l lst s =
  (Ok (l ++ seq (length (heap s)) (length lst)),
   set_heap (heap s ++ (newInstallation <$> lst)) s).
Proof.
  revert l s. induction lst as [| i lst IH]; intros l s; simpl.
  - unfold ret, set_heap. rewrite !app_nil_r. now destruct s.
  - unfold bind, alloc. rewrite IH. simpl.
    rewrite length_app. simpl. rewrite <- !app_assoc. simpl.
    now rewrite Nat.add_1_r.
Qed.

(** ** The page loop of [updateInstallations] *)

Lemma installationsLoop_trace fuel l opt s o s' :
  installationsLoop fuel l opt s = (o, s') ->
  exists evs pages e w',
    pageTrace EvListInstallations opt evs pages e /\
    (e = CutOff -> length evs = fuel) /\
    s' = mkState (installs s) (installsUpdatedAt s) (updateInterval s)
           (heap s ++ (newInstallation <$> concat pages)) w' (calls s ++ evs) /\
    o = endOutcome e (l ++ seq (length (heap s)) (length (concat pages))).
Proof.
  revert l opt s o s'. induction fuel as [| fuel IH]; intros l opt s o s'; simpl.
  - intros E. injection E as <- <-. exists [], [], CutOff, (world s).
    split; [constructor |]. split; [easy |]. simpl.
    rewrite !app_nil_r. now destruct s.
  - unfold bind at 1. unfold ListInstallations.
    destruct (client_ListInstallations opt (world s)) as [r w1] eqn:Ew.
    destruct r as [[lst response] | msg].
    + unfold bind at 1. rewrite appendInstallations_spec. simpl.
      destruct (Z.eqb_spec (NextPage response) 0) as [E0 | N0].
      * intros E. injection E as <- <-.
        exists [EvListInstallations opt (Served (lst, response))], [lst], Finished, w1.
        split; [now constructor |]. split; [easy |]. simpl.
        now rewrite !app_nil_r.
      * intros E. apply IH in E as (evs & pages & e & w' & Ht & Hc & -> & ->).
        exists (EvListInstallations opt (Served (lst, response)) :: evs),
          (lst :: pages), e, w'.
        split; [now constructor |]. split; [intros; simpl; f_equal; auto |].
        simpl. rewrite fmap_app, length_app, length_fmap, length_app.
        split.
        { f_equal; now rewrite <- app_assoc. }
        now rewrite seq_app, app_assoc.
    + intros E. injection E as <- <-.
      exists [EvListInstallations opt (Refused msg)], [], (Failed msg), w1.
      split; [constructor |]. split; [easy |]. simpl. now rewrite !app_nil_r.
Qed.

Lemma installationsLoop_paged fuel l opt s pages w' :
  paged client_ListInstallations opt (world s) pages w' ->
  (length pages <= fuel)%nat ->
  exists evs,
    pageTrace EvListInstallations opt evs pages Finished /\
    installationsLoop fuel l opt s =
    (Ok (l ++ seq (length (heap s)) (length (concat pages))),
     mkState (installs s) (installsUpdatedAt s) (updateInterval s)
       (heap s ++ (newInstallation <$> concat pages)) w' (calls s ++ evs)).
Proof.
  remember (world s) as w eqn:Ew. intros Hp. revert fuel l s Ew.
  induction Hp as [opt w lst response w' Hf H0
                  | opt w lst response w1 pages w' Hf H0 Hp IH];
    intros fuel l s -> Hle; (destruct fuel as [| fuel]; [simpl in Hle; lia |]).
  - exists [EvListInstallations opt (Served (lst, response))].
    split; [now constructor |]. simpl.
    unfold bind at 1. unfold ListInstallations. rewrite Hf.
    unfold bind. rewrite appendInstallations_spec.
    apply Z.eqb_eq in H0. rewrite H0. simpl. now rewrite !app_nil_r.
  - simpl in Hle.
    destruct (IH fuel (l ++ seq (length (heap s)) (length lst))
                (set_heap (heap s ++ (newInstallation <$> lst))
                   (set_world w1 (log_call
                      (EvListInstallations opt (Served (lst, response))) s)))
                eq_refl ltac:(lia)) as (evs & Ht & E).
    exists (EvListInstallations opt (Served (lst, response)) :: evs).
    split; [now constructor |]. simpl.
    unfold bind at 1. unfold ListInstallations. rewrite Hf.
    unfold bind at 1. rewrite appendInstallations_spec.
    apply Z.eqb_neq in H0. rewrite H0. etransitivity; [exact E |]. simpl.
    rewrite fmap_app, !length_app, length_fmap, seq_app.
    f_equal; [now rewrite <- app_assoc |].
    f_equal; now rewrite <- app_assoc.
Qed.

(** ** The page loop of [updateRepositories] *)

Lemma appendRepositories_spec (lst : list ghRepository) rs :
  appendRepositories rs lst = rs ++ (newRepository <$> lst).
Proof.
  revert rs. induction lst as [| r lst IH]; intros rs; simpl.
  - now rewrite app_nil_r.
  - now rewrite IH, <- app_assoc.
Qed.

Lemma repositoriesLoop_trace fuel token rs opt s o s' :
  repositoriesLoop fuel token rs opt s = (o, s') ->
  exists evs pages e w',
    pageTrace (EvListRepos token) opt evs pages e /\
    (e = CutOff -> length evs = fuel) /\
    s' = mkState (installs s) (installsUpdatedAt s) (updateInterval s)
           (heap s) w' (calls s ++ evs) /\
    o = endOutcome e (rs ++ (newRepository <$> concat pages)).
Proof.
  revert rs opt s o s'.
  induction fuel as [| fuel IH]; intros rs opt s o s'; simpl.
  - intros E. injection E as <- <-. exists [], [], CutOff, (world s).
    split; [constructor |]. split; [easy |]. simpl.
    rewrite !app_nil_r. now destruct s.
  - unfold bind at 1. unfold ListRepos.
    destruct (client_ListRepos token opt (world s)) as [r w1] eqn:Ew.
    destruct r as [[lst response] | msg].
    + rewrite appendRepositories_spec.
      destruct (Z.eqb_spec (NextPage response) 0) as [E0 | N0].
      * intros E. injection E as <- <-.
        exists [EvListRepos token opt (Served (lst, response))], [lst], Finished, w1.
        split; [now constructor |]. split; [easy |]. simpl.
        now rewrite !app_nil_r.
      * intros E. apply IH in E as (evs & pages & e & w' & Ht & Hc & -> & ->).
        exists (EvListRepos token opt (Served (lst, response)) :: evs),
          (lst :: pages), e, w'.
        split; [now constructor |]. split; [intros; simpl; f_equal; auto |].
        simpl. rewrite fmap_app. split.
        { f_equal; now rewrite <- app_assoc. }
        now rewrite app_assoc.
    + intros E. injection E as <- <-.
      exists [EvListRepos token opt (Refused msg)], [], (Failed msg), w1.
      split; [constructor |]. split; [easy |]. now simpl.
Qed.

Lemma repositoriesLoop_paged fuel token rs opt s pages w' :
  paged (client_ListRepos token) opt (world s) pages w' ->
  (length pages <= fuel)%nat ->
  exists evs,
    pageTrace (EvListRepos token) opt evs pages Finished /\
    repositoriesLoop fuel token rs opt s =
    (Ok (rs ++ (newRepository <$> concat pages)),
     mkState (installs s) (installsUpdatedAt s) (updateInterval s)
       (heap s) w' (calls s ++ evs)).
Proof.
  remember (world s) as w eqn:Ew. intros Hp. revert fuel rs s Ew.
  induction Hp as [opt w lst response w' Hf H0
                  | opt w lst response w1 pages w' Hf H0 Hp IH];
    intros fuel rs s -> Hle; (destruct fuel as [| fuel]; [simpl in Hle; lia |]).
  - exists [EvListRepos token opt (Served (lst, response))].
    split; [now constructor |]. simpl.
    unfold bind at 1. unfold ListRepos. rewrite Hf.
    rewrite appendRepositories_spec.
    apply Z.eqb_eq in H0. rewrite H0. simpl. now rewrite !app_nil_r.
  - simpl in Hle.
    destruct (IH fuel (rs ++ (newRepository <$> lst))
                (set_world w1 (log_call
                   (EvListRepos token opt (Served (lst, response))) s))
                eq_refl ltac:(lia)) as (evs & Ht & E).
    exists (EvListRepos token opt (Served (lst, response)) :: evs).
    split; [now constructor |]. simpl.
    unfold bind at 1. unfold ListRepos. rewrite Hf.
    rewrite appendRepositories_spec.
    apply Z.eqb_neq in H0. rewrite H0. rewrite E. simpl.
    rewrite fmap_app. f_equal; [now rewrite <- app_assoc |].
    f_equal; now rewrite <- app_assoc.
Qed.

(** ** Traces of the page loops *)

Global Instance EvListInstallations_page : PageEvent EvListInstallations.
Proof. split; easy. Qed.

Global Instance EvListRepos_page token : PageEvent (EvListRepos token).
Proof. split; easy. Qed.

Lemma faithful_nil f : faithful [] f.
Proof. left. constructor. Qed.

Lemma faithful_served evs f : Forall served evs -> faithful evs f.
Proof. now left. Qed.

(** A run that returned was refused nothing. *)
Lemma faithful_None evs : faithful evs None -> Forall served evs.
Proof. intros [Hs | (pre & ev & msg & _ & _ & _ & E)]; [exact Hs | discriminate]. Qed.

Lemma faithful_app evs1 evs2 f :
  Forall served evs1 -> faithful evs2 f -> faithful (evs1 ++ evs2) f.
Proof.
  intros H1 [H2 | (pre & ev & msg & -> & Hp & Hr & Ef)].
  - left. now apply Forall_app.
  - right. exists (evs1 ++ pre), ev, msg. rewrite app_assoc.
    split; [reflexivity |]. split; [now apply Forall_app |]. easy.
Qed.

Lemma cutOff_app fuel evs1 evs2 : cutOff fuel evs2 -> cutOff fuel (evs1 ++ evs2).
Proof.
  intros (pre & run & -> & Hl & Hc). exists (evs1 ++ pre), run.
  now rewrite app_assoc.
Qed.

Lemma haltsWell_None depth fuel evs : haltsWell depth fuel evs None.
Proof. intros h E. discriminate. Qed.

Lemma haltsWell_app depth fuel evs1 evs2 x :
  haltsWell depth fuel evs2 x -> haltsWell depth fuel (evs1 ++ evs2) x.
Proof.
  intros Hw h E. destruct (Hw h E) as [? | [? ?]]; [now left | right].
  split; [easy | now apply cutOff_app].
Qed.

Section PageTraces.

Context {A} (ev : ListOptions -> reply (list A * Response) -> Event)
  `{!PageEvent ev}.

Lemma pageTrace_faithful {B} opt evs pages e (a : B) :
  pageTrace ev opt evs pages e -> faithful evs (failure (endOutcome e a)).
Proof.
  induction 1 as [opt | opt msg | opt lst response H0
                 | opt lst response evs pages e H0 Ht IH]; simpl.
  - apply faithful_nil.
  - right. exists [], (ev opt (Refused msg)), msg.
    split; [reflexivity |]. split; [constructor |].
    split; [apply page_refused |]. now rewrite page_propagated.
  - left. repeat constructor. apply page_served.
  - apply (faithful_app [_]); [| exact IH].
    repeat constructor. apply page_served.
Qed.

Lemma pageTrace_continued opt evs pages :
  pageTrace ev opt evs pages CutOff -> Forall continued evs.
Proof.
  remember CutOff as e eqn:Ee.
  induction 1 as [opt | opt msg | opt lst response H0
                 | opt lst response evs pages e H0 Ht IH];
    try discriminate; constructor; auto.
  now apply page_continued.
Qed.

Lemma pageTrace_haltsWell {B} depth fuel opt evs pages e (a : B) :
  pageTrace ev opt evs pages e -> (e = CutOff -> length evs = fuel) ->
  haltsWell depth fuel evs (halted (endOutcome e a)).
Proof.
  intros Ht Hc h Eh. destruct e; try discriminate.
  injection Eh as <-. right. split; [reflexivity |].
  exists [], evs. split; [reflexivity |]. split; [now apply Hc |].
  now apply pageTrace_continued in Ht.
Qed.

Lemma pageTrace_unscoped opt evs pages e :
  pageTrace ev opt evs pages e -> Forall unscoped evs.
Proof.
  induction 1; repeat constructor; auto; apply page_unscoped.
Qed.

(** The first request is the one the loop starts with; every later one
    asks for a page that is not page [0], with the same page size. *)
Lemma pageTrace_requests opt evs pages e :
  pageTrace ev opt evs pages e ->
  match evs with
  | [] => True
  | first :: rest =>
      (exists r, first = ev opt r) /\
      Forall (fun e' => exists opt' r,
                e' = ev opt' r /\ Page opt' <> 0 /\ PerPage opt' = PerPage opt) rest
  end.
Proof.
  induction 1 as [opt | opt msg | opt lst response H0
                 | opt lst response evs pages e H0 Ht IH]; simpl; eauto.
  split; [eauto |]. destruct evs as [| first rest]; [constructor |].
  destruct IH as [[r ->] Hrest]. constructor.
  - eexists _, r. split; [reflexivity |]. simpl. easy.
  - exact Hrest.
Qed.

End PageTraces.

(** ** updateInstallations *)

Lemma Now_eq s now w1 :
  time_Now (world s) = (now, w1) -> Now s = (Ok now, set_world w1 s).
Proof. intros E. unfold Now. now rewrite E. Qed.

Lemma updateInstallations_fresh fuel s now w1 :
  time_Now (world s) = (now, w1) ->
  After (Add (installsUpdatedAt s) (updateInterval s)) now = true ->
  updateInstallations fuel s = (Ok tt, set_world w1 s).
Proof.
  intros En Ef. unfold updateInstallations, bind, get.
  rewrite (Now_eq _ _ _ En). now rewrite Ef.
Qed.

Lemma updateInstallations_stale fuel s now w1 o s' :
  time_Now (world s) = (now, w1) ->
  After (Add (installsUpdatedAt s) (updateInterval s)) now = false ->
  updateInstallations fuel s = (o, s') ->
  exists evs pages e w2,
    pageTrace EvListInstallations (mkListOptions 0 10) evs pages e /\
    (e = CutOff -> length evs = fuel) /\
    calls s' = calls s ++ evs /\
    heap s' = heap s ++ (newInstallation <$> concat pages) /\
    updateInterval s' = updateInterval s /\
    match e with
    | Finished =>
        exists now', time_Now w2 = (now', world s') /\ o = Ok tt /\
          installs s' = seq (length (heap s)) (length (concat pages)) /\
          installsUpdatedAt s' = now'
    | _ => o = endOutcome e tt /\ installs s' = installs s /\
           installsUpdatedAt s' = installsUpdatedAt s /\ world s' = w2
    end.
Proof.
  intros En Ef. unfold updateInstallations, bind at 1, get.
  unfold bind at 1. rewrite (Now_eq _ _ _ En), Ef.
  unfold bind at 1.
  destruct (installationsLoop fuel [] (mkListOptions 0 10) (set_world w1 s))
    as [o1 s1] eqn:El.
  apply installationsLoop_trace in El
    as (evs & pages & e & w2 & Ht & Hc & -> & ->).
  intros E. exists evs, pages, e, w2. split; [exact Ht |]. split; [exact Hc |].
  destruct e; simpl in E.
  - unfold bind, Now in E. simpl in E.
    destruct (time_Now w2) as [now' w3] eqn:En'.
    injection E as <- <-. simpl. repeat split; eauto.
  - injection E as <- <-. simpl. repeat split; eauto.
  - injection E as <- <-. simpl. repeat split; eauto.
Qed.

Lemma pageTrace_isListInstallations opt evs pages e :
  pageTrace EvListInstallations opt evs pages e -> Forall isListInstallations evs.
Proof. induction 1; repeat constructor; auto. Qed.

Lemma pageTrace_isListRepos token opt evs pages e :
  pageTrace (EvListRepos token) opt evs pages e -> Forall isListRepos evs.
Proof. induction 1; repeat constructor; auto. Qed.

Lemma After_Add_true t d now : After (Add t d) now = true <-> now < t + d.
Proof. unfold After, Add. apply Z.ltb_lt. Qed.

Lemma After_Add_false t d now : After (Add t d) now = false <-> t + d <= now.
Proof. unfold After, Add. apply Z.ltb_ge. Qed.

(** What every run of [updateInstallations] does to the state. *)
Lemma updateInstallations_run fuel s o s' :
  updateInstallations fuel s = (o, s') ->
  exists evs,
    calls s' = calls s ++ evs /\
    updateInterval s' = updateInterval s /\
    heap s `prefix_of` heap s' /\
    Forall isListInstallations evs /\
    faithful evs (failure o) /\
    (forall depth, haltsWell depth fuel evs (halted o)) /\
    (o <> Ok tt ->
     installs s' = installs s /\ installsUpdatedAt s' = installsUpdatedAt s).
Proof.
  intros E. destruct (time_Now (world s)) as [now w1] eqn:En.
  destruct (After (Add (installsUpdatedAt s) (updateInterval s)) now) eqn:Ef.
  - rewrite (updateInstallations_fresh _ _ _ _ En Ef) in E.
    injection E as <- <-. exists []. simpl. rewrite app_nil_r.
    repeat split; try easy. apply faithful_nil.
  - destruct (updateInstallations_stale _ _ _ _ _ _ En Ef E)
      as (evs & pages & e & w2 & Ht & Hc & Ecalls & Eheap & Eint & He).
    exists evs. split; [exact Ecalls |]. split; [exact Eint |].
    split; [rewrite Eheap; now apply prefix_app_r |].
    split; [now apply pageTrace_isListInstallations in Ht |].
    destruct e.
    + destruct He as (now' & _ & -> & _). simpl.
      split; [apply (pageTrace_faithful _ _ _ _ _ tt Ht) |].
      split; [intros depth; apply haltsWell_None | easy].
    + destruct He as (-> & Ei & Et & _).
      split; [apply (pageTrace_faithful _ _ _ _ _ tt Ht) |].
      split; [intros depth; apply haltsWell_None | easy].
    + destruct He as (-> & Ei & Et & _).
      split; [apply (pageTrace_faithful _ _ _ _ _ tt Ht) |].
      split; [| easy].
      intros depth. now apply (pageTrace_haltsWell _ depth fuel _ _ _ _ tt Ht).
Qed.

(** ** getInstallationID *)

Lemma findInstallationID_present h owner l id :
  findInstallationID h owner l = Some id -> present h owner l.
Proof.
  induction l as [| p l IH]; simpl; [discriminate |].
  destruct (decide (Owner (deref h p) = owner)) as [E | N].
  - intros _. exists p. split; [left | exact E].
  - intros Hf. destruct (IH Hf) as (q & Hq & Eo). exists q. split; [now right | exact Eo].
Qed.

Lemma findInstallationID_None h owner l :
  findInstallationID h owner l = None <-> ~ present h owner l.
Proof.
  induction l as [| p l IH]; simpl.
  - split; [| easy]. intros _ (q & Hq & _). inversion Hq.
  - destruct (decide (Owner (deref h p) = owner)) as [E | N].
    + split; [discriminate |]. intros Hn. exfalso. apply Hn.
      exists p. split; [left | exact E].
    + rewrite IH. split; intros Hn (q & Hq & Eo); apply Hn.
      * inversion Hq; subst; [contradiction |]. now exists q.
      * exists q. split; [now right | exact Eo].
Qed.

Lemma getInstallationID_run fuel owner s o s' :
  getInstallationID fuel owner s = (o, s') ->
  exists evs,
    calls s' = calls s ++ evs /\
    updateInterval s' = updateInterval s /\
    heap s `prefix_of` heap s' /\
    Forall isListInstallations evs /\
    faithful evs (failure o) /\
    (forall depth, haltsWell depth fuel evs (halted o)) /\
    (forall id, o = Ok id ->
       findInstallationID (heap s') owner (installs s') = Some id).
Proof.
  unfold getInstallationID. intros E.
  apply bind_inv in E as [(a & s1 & Eu & E) | [(e & Eu & ->) | (x & Eu & ->)]];
    apply updateInstallations_run in Eu
      as (evs & Ec & Ei & Eh & Hk & Hf & Hh & _); exists evs.
  - unfold bind, get in E.
    destruct (findInstallationID (heap s1) owner (installs s1)) as [id |] eqn:Efind;
      injection E as <- <-; (do 4 (split; [assumption |])).
    + split; [exact Hf |]. split; [exact Hh |].
      intros id' Eid. now injection Eid as <-.
    + split; [apply faithful_served; now apply faithful_None in Hf |].
      split; [intros depth; apply haltsWell_None | easy].
  - do 4 (split; [assumption |]). easy.
  - do 4 (split; [assumption |]). easy.
Qed.

(** ** The token request (lines 82-86) *)

Lemma requestToken_inv id opt s o s' :
  bind (MintToken id opt)
    (fun r => match r with
              | Refused msg =>
                  throw (Errorf ("failed to create token: " +:+ Error (RemoteError msg)))
              | Served installationToken => ret installationToken
              end) s = (o, s') ->
  exists r w,
    client_CreateInstallationToken id opt (world s) = (r, w) /\
    s' = set_world w (log_call (EvCreateInstallationToken id opt r) s) /\
    o = mintOutcome r.
Proof.
  unfold bind, MintToken.
  destruct (client_CreateInstallationToken id opt (world s)) as [r w].
  intros E. exists r, w. split; [reflexivity |].
  destruct r; injection E as <- <-; easy.
Qed.

Lemma mintOutcome_faithful id opt r :
  faithful [EvCreateInstallationToken id opt r] (failure (mintOutcome r)).
Proof.
  destruct r as [t | msg].
  - left. now repeat constructor.
  - right. exists [], (EvCreateInstallationToken id opt (Refused msg)), msg.
    now repeat split.
Qed.

Lemma mintOutcome_halted r : halted (mintOutcome r) = None.
Proof. now destruct r. Qed.

(** ** The unscoped request: [CreateInstallationToken] without repositories *)

(** With no repository to resolve, the body never uses the function it
    would resolve them with. *)
Lemma CreateInstallationToken_body_nil mint mint' fuel owner permissions s :
  CreateInstallationToken_body mint fuel owner [] permissions s =
  CreateInstallationToken_body mint' fuel owner [] permissions s.
Proof. reflexivity. Qed.

Lemma unscoped_run mint fuel owner permissions s o s' :
  CreateInstallationToken_body mint fuel owner [] permissions s = (o, s') ->
  exists evsI evsM,
    calls s' = calls s ++ evsI ++ evsM /\
    updateInterval s' = updateInterval s /\
    heap s `prefix_of` heap s' /\
    Forall isListInstallations evsI /\
    (evsM = [] /\ (forall token, o <> Ok token) \/
     exists id r,
       evsM = [EvCreateInstallationToken id (mkTokenOptions [] permissions) r] /\
       findInstallationID (heap s') owner (installs s') = Some id /\
       o = mintOutcome r) /\
    faithful (evsI ++ evsM) (failure o) /\
    (forall depth, haltsWell depth fuel (evsI ++ evsM) (halted o)) /\
    (forall token, o = Ok token -> present (heap s') owner (installs s')).
Proof.
  unfold CreateInstallationToken_body. intros E.
  apply bind_inv in E as [(id & s1 & Eg & E) | [(e & Eg & ->) | (x & Eg & ->)]];
    apply getInstallationID_run in Eg
      as (evs & Ec & Ei & Eh & Hk & Hf & Hh & Hid).
  - specialize (Hid id eq_refl).
    change (bind (MintToken id (mkTokenOptions [] permissions))
              (fun r => match r with
                 | Refused msg =>
                     throw (Errorf ("failed to create token: "
                                    +:+ Error (RemoteError msg)))
                 | Served installationToken => ret installationToken
                 end) s1 = (o, s')) in E.
    apply requestToken_inv in E as (r & w & Er & -> & ->).
    exists evs, [EvCreateInstallationToken id (mkTokenOptions [] permissions) r].
    simpl. rewrite Ec, <- app_assoc.
    do 4 (split; [assumption || reflexivity |]).
    split; [right; now exists id, r |].
    split; [apply faithful_app;
            [now apply faithful_None in Hf | apply mintOutcome_faithful] |].
    split; [intros depth; rewrite mintOutcome_halted; apply haltsWell_None |].
    intros token _. now apply findInstallationID_present in Hid.
  - exists evs, []. rewrite app_nil_r.
    do 4 (split; [assumption |]). split; [now left |]. easy.
  - exists evs, []. rewrite app_nil_r.
    do 4 (split; [assumption |]). split; [now left |]. easy.
Qed.

Lemma mintOutcome_Ok r token : mintOutcome r = Ok token -> r = Served token.
Proof. destruct r; simpl; congruence. Qed.

(** ** updateRepositories *)

Lemma lastInstallation_Some h owner l i0 i :
  lastInstallation h owner i0 l = Some i ->
  (i ∈ l /\ Owner (deref h i) = owner) \/ i0 = Some i.
Proof.
  revert i0. induction l as [| p l IH]; simpl; intros i0 E; [now right |].
  apply IH in E as [[Hin Eo] | E].
  - left. split; [now right | exact Eo].
  - destruct (decide (Owner (deref h p) = owner)) as [Eo | N]; [| now right].
    injection E as <-. left. split; [left | exact Eo].
Qed.

Lemma lastInstallation_present h owner l i :
  lastInstallation h owner None l = Some i -> present h owner l.
Proof.
  intros E. apply lastInstallation_Some in E as [[Hin Eo] | E]; [| discriminate].
  now exists i.
Qed.

Lemma lastInstallation_is_Some h owner l i0 :
  present h owner l \/ is_Some i0 -> is_Some (lastInstallation h owner i0 l).
Proof.
  revert i0. induction l as [| p l IH]; simpl; intros i0 [Hp | Hs].
  - destruct Hp as (q & Hq & _). inversion Hq.
  - exact Hs.
  - apply IH. destruct Hp as (q & Hq & Eo).
    apply elem_of_cons in Hq as [-> | Hq].
    + right. destruct (decide (Owner (deref h p) = owner)); [eauto | contradiction].
    + left. now exists q.
  - apply IH. right. destruct (decide (Owner (deref h p) = owner)); eauto.
Qed.

(** Writing the repositories of an installation changes no owner. *)
Lemma deref_insert_Owner h i id rs t p :
  Owner (deref (<[i := mkInstallation id (Owner (deref h i)) rs t]> h) p) =
  Owner (deref h p).
Proof.
  unfold deref. destruct (decide (i = p)) as [-> | N].
  - destruct (decide (p < length h)%nat) as [Hlt | Hge].
    + now rewrite list_lookup_insert_eq.
    + rewrite list_insert_ge by lia. reflexivity.
  - now rewrite list_lookup_insert_ne.
Qed.

Lemma present_insert h owner l i id rs t :
  present h owner l ->
  present (<[i := mkInstallation id (Owner (deref h i)) rs t]> h) owner l.
Proof.
  intros (p & Hp & Eo). exists p. split; [exact Hp |].
  now rewrite deref_insert_Owner.
Qed.

Lemma updateRepositories_inv depth fuel owner s o s' :
  updateRepositories depth fuel owner s = (o, s') ->
  match lastInstallation (heap s) owner None (installs s) with
  | None => o = Halt Panic /\ s' = s
  | Some i =>
      exists now w1, time_Now (world s) = (now, w1) /\
      if After (Add (RepositoriesUpdatedAt (deref (heap s) i)) (updateInterval s)) now
      then o = Ok tt /\ s' = set_world w1 s
      else
        exists o1 s1,
          CreateInstallationToken depth fuel owner [] [] (set_world w1 s) = (o1, s1) /\
          match o1 with
          | Ok token =>
              exists evs pages e w2,
                pageTrace (EvListRepos (GetToken token)) (mkListOptions 0 100)
                  evs pages e /\
                (e = CutOff -> length evs = fuel) /\
                calls s' = calls s1 ++ evs /\
                installs s' = installs s1 /\
                installsUpdatedAt s' = installsUpdatedAt s1 /\
                updateInterval s' = updateInterval s1 /\
                match e with
                | Finished =>
                    exists now', time_Now w2 = (now', world s') /\ o = Ok tt /\
                      heap s' =
                      <[i := mkInstallation (ID (deref (heap s1) i))
                              (Owner (deref (heap s1) i))
                              (newRepository <$> concat pages) now']> (heap s1)
                | _ => o = endOutcome e tt /\ heap s' = heap s1 /\ world s' = w2
                end
          | Err e => o = Err e /\ s' = s1
          | Halt x => o = Halt x /\ s' = s1
          end
  end.
Proof.
  unfold updateRepositories, updateRepositories_body, bind at 1, get.
  destruct (lastInstallation (heap s) owner None (installs s)) as [i |];
    [| intros E; now injection E as <- <-].
  destruct (time_Now (world s)) as [now w1] eqn:En.
  unfold bind at 1. rewrite (Now_eq _ _ _ En). intros E. exists now, w1.
  split; [reflexivity |].
  destruct (After _ now); [now injection E as <- <- |].
  unfold bind at 1 in E.
  destruct (CreateInstallationToken depth fuel owner [] [] (set_world w1 s))
    as [o1 s1] eqn:Em.
  exists o1, s1. split; [reflexivity |].
  destruct o1 as [token | e | x]; [| now injection E as <- <- ..].
  unfold bind at 1 in E.
  destruct (repositoriesLoop fuel (GetToken token) [] (mkListOptions 0 100) s1)
    as [o2 s2] eqn:El.
  apply repositoriesLoop_trace in El
    as (evs & pages & e & w2 & Ht & Hc & -> & ->).
  exists evs, pages, e, w2. split; [exact Ht |]. split; [exact Hc |].
  destruct e; simpl in E.
  - unfold bind, Now, storeRepositories in E. simpl in E.
    destruct (time_Now w2) as [now' w3] eqn:En'.
    injection E as <- <-. simpl. repeat split; eauto.
  - injection E as <- <-. simpl. repeat split; eauto.
  - injection E as <- <-. simpl. repeat split; eauto.
Qed.

Lemma isListInstallations_unscoped evs :
  Forall isListInstallations evs -> Forall unscoped evs.
Proof. intros Hk. eapply Forall_impl; [exact Hk | now intros []]. Qed.

(** The token request of [updateRepositories]. *)
Lemma bootstrap_run depth fuel owner s o s' :
  CreateInstallationToken depth fuel owner [] [] s = (o, s') ->
  exists evs,
    calls s' = calls s ++ evs /\
    updateInterval s' = updateInterval s /\
    heap s `prefix_of` heap s' /\
    Forall unscoped evs /\
    Forall (fun ev => ~ isListRepos ev) evs /\
    faithful evs (failure o) /\
    haltsWell depth fuel evs (halted o) /\
    (forall token, o = Ok token -> present (heap s') owner (installs s')).
Proof.
  destruct depth as [| depth]; simpl.
  - intros E. injection E as <- <-. exists []. rewrite app_nil_r.
    do 4 (split; [easy |]). split; [constructor |].
    split; [apply faithful_nil |]. split; [| easy].
    intros h Eh. injection Eh as <-. now left.
  - intros E.
    apply unscoped_run in E as (evsI & evsM & Ec & Ei & Eh & Hk & Hm & Hf & Hh & Hp).
    exists (evsI ++ evsM). do 3 (split; [assumption |]).
    assert (Forall unscoped evsM /\ Forall (fun ev => ~ isListRepos ev) evsM)
      as [Hu Hn].
    { destruct Hm as [[-> _] | (id & r & -> & _)]; split; repeat constructor; easy. }
    split; [apply Forall_app; split; [now apply isListInstallations_unscoped | easy] |].
    split; [apply Forall_app; split; [| easy];
            eapply Forall_impl; [exact Hk | now intros []] |].
    split; [exact Hf |]. split; [apply Hh | exact Hp].
Qed.

Lemma updateRepositories_run depth fuel owner s o s' :
  updateRepositories depth fuel owner s = (o, s') ->
  present (heap s) owner (installs s) ->
  exists evs,
    calls s' = calls s ++ evs /\
    updateInterval s' = updateInterval s /\
    Forall unscoped evs /\
    faithful evs (failure o) /\
    haltsWell depth fuel evs (halted o) /\
    (o = Ok tt -> present (heap s') owner (installs s')) /\
    (o <> Ok tt -> heap s `prefix_of` heap s').
Proof.
  intros E Hp. apply updateRepositories_inv in E.
  destruct (lastInstallation_is_Some (heap s) owner (installs s) None (or_introl Hp))
    as [i Ei].
  rewrite Ei in E. destruct E as (now & w1 & En & E).
  destruct (After _ now).
  { destruct E as [-> ->]. exists []. simpl. rewrite app_nil_r.
    do 2 (split; [reflexivity |]). split; [constructor |].
    split; [apply faithful_nil |]. split; [apply haltsWell_None |]. easy. }
  destruct E as (o1 & s1 & Em & E).
  apply bootstrap_run in Em as (evs1 & Ec & Eint & Eh & Hu & _ & Hf & Hh & Hp1).
  simpl in Ec, Eint, Eh.
  destruct o1 as [token | e | x].
  - destruct E as (evs & pages & e & w2 & Ht & Hc & Ec' & Einst & _ & Eint' & E).
    exists (evs1 ++ evs). rewrite Ec', Ec, app_assoc.
    split; [reflexivity |]. split; [congruence |].
    split; [apply Forall_app; split;
            [exact Hu | now apply pageTrace_unscoped in Ht] |].
    apply faithful_None in Hf. specialize (Hp1 token eq_refl).
    destruct e.
    + destruct E as (now' & _ & -> & Eheap).
      split; [apply faithful_app;
              [exact Hf | apply (pageTrace_faithful _ _ _ _ _ tt Ht)] |].
      split; [apply haltsWell_None |]. split; [| easy].
      intros _. rewrite Eheap, Einst. now apply present_insert.
    + destruct E as (-> & Eheap & _).
      split; [apply faithful_app;
              [exact Hf | apply (pageTrace_faithful _ _ _ _ _ tt Ht)] |].
      split; [apply haltsWell_None |]. split; [easy |].
      intros _. now rewrite Eheap.
    + destruct E as (-> & Eheap & _).
      split; [apply faithful_app;
              [exact Hf | apply (pageTrace_faithful _ _ _ _ _ tt Ht)] |].
      split; [apply haltsWell_app;
              now apply (pageTrace_haltsWell _ depth fuel _ _ _ _ tt Ht) |].
      split; [easy |]. intros _. now rewrite Eheap.
  - destruct E as [-> ->]. exists evs1. do 5 (split; [assumption |]). easy.
  - destruct E as [-> ->]. exists evs1. do 5 (split; [assumption |]). easy.
Qed.

(** ** getRepositoryID and the loop over the repository names *)

Lemma getRepositoryID_run depth fuel owner repo s o s' :
  getRepositoryID depth fuel owner repo s = (o, s') ->
  present (heap s) owner (installs s) ->
  exists evs,
    calls s' = calls s ++ evs /\
    updateInterval s' = updateInterval s /\
    Forall unscoped evs /\
    faithful evs (failure o) /\
    haltsWell depth fuel evs (halted o) /\
    (forall id, o = Ok id ->
       present (heap s') owner (installs s') /\
       findRepositoryID (heap s') owner repo (installs s') = Some id).
Proof.
  unfold getRepositoryID, getRepositoryID_body. intros E Hp.
  apply bind_inv in E as [(a & s1 & Eu & E) | [(e & Eu & ->) | (x & Eu & ->)]];
    apply (updateRepositories_run depth) in Eu
      as (evs & Ec & Ei & Hu & Hf & Hh & Hp1 & _); try exact Hp; exists evs.
  - destruct a. specialize (Hp1 eq_refl). unfold bind, get in E.
    destruct (findRepositoryID (heap s1) owner repo (installs s1)) as [id |] eqn:Efind;
      injection E as <- <-; (do 3 (split; [assumption |])).
    + split; [exact Hf |]. split; [exact Hh |].
      intros id' Eid. now injection Eid as <-.
    + split; [apply faithful_served; now apply faithful_None in Hf |].
      split; [apply haltsWell_None | easy].
  - do 5 (split; [assumption |]). easy.
  - do 5 (split; [assumption |]). easy.
Qed.

Lemma resolveRepositories_run depth fuel owner repos ids s o s' :
  resolveRepositories (CreateInstallationToken depth fuel) fuel owner ids repos s
  = (o, s') ->
  present (heap s) owner (installs s) ->
  exists evs,
    calls s' = calls s ++ evs /\
    updateInterval s' = updateInterval s /\
    Forall unscoped evs /\
    faithful evs (failure o) /\
    haltsWell depth fuel evs (halted o) /\
    (forall ids', o = Ok ids' ->
       length ids' = (length ids + length repos)%nat).
Proof.
  revert ids s. induction repos as [| repo repos IH]; intros ids s; simpl.
  - intros E _. injection E as <- <-. exists []. rewrite app_nil_r.
    do 2 (split; [reflexivity |]). split; [constructor |].
    split; [apply faithful_nil |]. split; [apply haltsWell_None |].
    intros ids' Eid. injection Eid as <-. lia.
  - intros E Hp.
    apply bind_inv in E as [(id & s1 & Eg & E) | [(e & Eg & ->) | (x & Eg & ->)]];
      apply (getRepositoryID_run depth) in Eg
        as (evs & Ec & Ei & Hu & Hf & Hh & Hid); try exact Hp.
    + destruct (Hid id eq_refl) as [Hp1 _].
      apply IH in E as (evs' & Ec' & Ei' & Hu' & Hf' & Hh' & Hl); [| exact Hp1].
      exists (evs ++ evs'). rewrite Ec', Ec, app_assoc.
      split; [reflexivity |]. split; [congruence |].
      split; [now apply Forall_app |].
      split; [apply faithful_app; [now apply faithful_None in Hf | exact Hf'] |].
      split; [now apply haltsWell_app |].
      intros ids' Eid. rewrite (Hl ids' Eid), length_app. simpl. lia.
    + exists evs. do 5 (split; [assumption |]). easy.
    + exists evs. do 5 (split; [assumption |]). easy.
Qed.

(** ** CreateInstallationToken *)

Lemma CreateInstallationToken_run depth fuel owner repos permissions s o s' :
  CreateInstallationToken (S depth) fuel owner repos permissions s = (o, s') ->
  exists evs,
    calls s' = calls s ++ evs /\
    updateInterval s' = updateInterval s /\
    faithful evs (failure o) /\
    haltsWell depth fuel evs (halted o).
Proof.
  simpl. unfold CreateInstallationToken_body. intros E.
  apply bind_inv in E as [(id & s1 & Eg & E) | [(e & Eg & ->) | (x & Eg & ->)]];
    apply getInstallationID_run in Eg
      as (evs & Ec & Ei & Eh & Hk & Hf & Hh & Hid).
  2, 3: exists evs; do 3 (split; [assumption |]); apply Hh.
  specialize (Hid id eq_refl). apply findInstallationID_present in Hid.
  apply faithful_None in Hf.
  apply bind_inv in E as [(ids & s2 & Er & E) | [(e & Er & ->) | (x & Er & ->)]];
    apply resolveRepositories_run in Er
      as (evs' & Ec' & Ei' & Hu' & Hf' & Hh' & Hl); try exact Hid.
  2, 3: exists (evs ++ evs'); rewrite Ec', Ec, app_assoc;
    split; [reflexivity |]; split; [congruence |];
    split; [now apply faithful_app | now apply haltsWell_app].
  apply faithful_None in Hf'.
  apply requestToken_inv in E as (r & w & Er & -> & ->).
  exists (evs ++ evs' ++ [EvCreateInstallationToken id (mkTokenOptions ids permissions) r]).
  simpl. rewrite Ec', Ec, <- !app_assoc.
  split; [reflexivity |]. split; [congruence |].
  split; [do 2 (apply faithful_app; [assumption |]); apply mintOutcome_faithful |].
  rewrite mintOutcome_halted. apply haltsWell_None.
Qed.

(** ** The depth of the call chain *)

Section Extensionality.

Variables mint1 mint2 :
  string -> list string -> InstallationPermissions -> M (W := W) InstallationToken.
Variable owner : string.
Hypothesis mint_ext : forall s, mint1 owner [] [] s = mint2 owner [] [] s.

Lemma updateRepositories_body_ext fuel s :
  updateRepositories_body mint1 fuel owner s =
  updateRepositories_body mint2 fuel owner s.
Proof.
  unfold updateRepositories_body. apply bind_ext. intros a s1.
  destruct (lastInstallation (heap a) owner None (installs a)); [| reflexivity].
  apply bind_ext. intros now s2. destruct (After _ now); [reflexivity |].
  unfold bind at 1. unfold bind at 4. now rewrite mint_ext.
Qed.

Lemma getRepositoryID_body_ext fuel repo s :
  getRepositoryID_body mint1 fuel owner repo s =
  getRepositoryID_body mint2 fuel owner repo s.
Proof.
  unfold getRepositoryID_body, bind at 1. unfold bind at 2.
  now rewrite updateRepositories_body_ext.
Qed.

Lemma resolveRepositories_ext fuel ids repos s :
  resolveRepositories mint1 fuel owner ids repos s =
  resolveRepositories mint2 fuel owner ids repos s.
Proof.
  revert ids s. induction repos as [| repo repos IH]; intros ids s; simpl;
    [reflexivity |].
  unfold bind. rewrite getRepositoryID_body_ext.
  destruct (getRepositoryID_body mint2 fuel owner repo s) as [[id | e | x] s1];
    auto.
Qed.

Lemma CreateInstallationToken_body_ext fuel repos permissions s :
  CreateInstallationToken_body mint1 fuel owner repos permissions s =
  CreateInstallationToken_body mint2 fuel owner repos permissions s.
Proof.
  unfold CreateInstallationToken_body. apply bind_ext. intros id s1.
  unfold bind at 1. unfold bind at 2. now rewrite resolveRepositories_ext.
Qed.

End Extensionality.

Lemma CreateInstallationToken_depth depth fuel owner repos permissions s :
  CreateInstallationToken (S (S depth)) fuel owner repos permissions s =
  CreateInstallationToken 2 fuel owner repos permissions s.
Proof.
  simpl. apply CreateInstallationToken_body_ext. intros s1. reflexivity.
Qed.

(** ** The nil pointer of [updateRepositories] *)

Lemma lastInstallation_absent h owner l :
  ~ present h owner l -> lastInstallation h owner None l = None.
Proof.
  intros Hn. destruct (lastInstallation h owner None l) as [i |] eqn:E;
    [| reflexivity].
  exfalso. apply Hn. now apply lastInstallation_present in E.
Qed.

(** Called for an owner without installation, [updateRepositories]
    dereferences [nil] at line 159. *)
Lemma updateRepositories_nil depth fuel owner s :
  ~ present (heap s) owner (installs s) ->
  updateRepositories depth fuel owner s = (Halt Panic, s).
Proof.
  intros Hn. unfold updateRepositories, updateRepositories_body, bind, get.
  now rewrite lastInstallation_absent.
Qed.

(** ** Refusals *)

Lemma served_not_refused evs ev msg :
  Forall served evs -> ev ∈ evs -> refusal ev = Some msg -> False.
Proof.
  intros Hs Hin Hr. rewrite Forall_forall in Hs. specialize (Hs ev Hin).
  unfold served in Hs. congruence.
Qed.

Lemma faithful_propagates evs f : faithful evs f -> propagates evs f.
Proof.
  intros [Hs | (pre' & ev' & msg' & -> & Hs & Hr' & ->)] pre ev post msg E Hr.
  - exfalso. apply (served_not_refused evs ev msg Hs); [| exact Hr].
    rewrite E. apply elem_of_app. right. left.
  - destruct post as [| z post] using rev_ind.
    + apply app_inj_tail in E as [-> ->]. split; [reflexivity |]. congruence.
    + clear IHpost. exfalso.
      rewrite app_comm_cons, app_assoc in E.
      apply app_inj_tail in E as [-> _].
      apply (served_not_refused _ ev msg Hs); [| exact Hr].
      apply elem_of_app. right. left.
Qed.

Lemma propagated_not_NotFound ev msg key :
  propagated ev msg <> ErrInstallationNotFound key.
Proof. now destruct ev. Qed.

Lemma present_dec h owner l : present h owner l \/ ~ present h owner l.
Proof.
  destruct (findInstallationID h owner l) as [id |] eqn:E.
  - left. now apply findInstallationID_present in E.
  - right. now apply findInstallationID_None.
Qed.

Lemma getInstallationID_fresh fuel owner s now w1 :
  time_Now (world s) = (now, w1) ->
  After (Add (installsUpdatedAt s) (updateInterval s)) now = true ->
  getInstallationID fuel owner s =
  (match findInstallationID (heap s) owner (installs s) with
   | Some id => Ok id
   | None => Err (ErrInstallationNotFound owner)
   end, set_world w1 s).
Proof.
  intros En Ef. unfold getInstallationID, bind at 1.
  rewrite (updateInstallations_fresh _ _ _ _ En Ef). unfold bind, get. simpl.
  now destruct (findInstallationID (heap s) owner (installs s)).
Qed.

(** ** Lookups that find nothing *)

Lemma findRepository_None repo rs :
  (forall r, r ∈ rs -> Name r <> repo) -> findRepository repo rs = None.
Proof.
  induction rs as [| r rs IH]; simpl; intros Hn; [reflexivity |].
  destruct (decide (Name r = repo)) as [E | _].
  - exfalso. apply (Hn r); [left | exact E].
  - apply IH. intros r' Hr'. apply Hn. now right.
Qed.

Lemma findRepositoryID_None h owner repo l :
  (forall p, p ∈ l -> Owner (deref h p) = owner ->
     forall r, r ∈ Repositories (deref h p) -> Name r <> repo) ->
  findRepositoryID h owner repo l = None.
Proof.
  induction l as [| p l IH]; simpl; intros Hn; [reflexivity |].
  assert (findRepositoryID h owner repo l = None) as ->.
  { apply IH. intros q Hq. apply Hn. now right. }
  destruct (decide (Owner (deref h p) = owner)) as [E | _]; [| reflexivity].
  rewrite findRepository_None; [reflexivity |]. apply Hn; [left | exact E].
Qed.

(** ** Pages put together *)

Lemma length_concat_sum {A} (pages : list (list A)) :
  length (concat pages) = sum_list_with length pages.
Proof.
  induction pages as [| lst pages IH]; simpl; [reflexivity |].
  now rewrite length_app, IH.
Qed.

(** The pointers to freshly allocated objects read back these objects. *)
Lemma deref_seq_app h (objs : list installation) :
  deref (h ++ objs) <$> seq (length h) (length objs) = objs.
Proof.
  apply list_eq. intros k. rewrite list_lookup_fmap.
  destruct (decide (k < length objs)%nat) as [Hlt | Hge].
  - rewrite lookup_seq_lt by exact Hlt. simpl. unfold deref.
    rewrite lookup_app_r by lia.
    replace (length h + k - length h)%nat with k by lia.
    destruct (lookup_lt_is_Some_2 objs k Hlt) as [x Ex]. now rewrite Ex.
  - rewrite lookup_seq_ge by lia. simpl. symmetry.
    apply lookup_ge_None. lia.
Qed.

(** ** A refresh that is not skipped makes a remote call *)

Lemma pageTrace_nil {A} (ev : ListOptions -> reply (list A * Response) -> Event)
  opt pages e :
  pageTrace ev opt [] pages e -> e = CutOff.
Proof. intros Ht. now inversion Ht. Qed.




(** ** The loop over the repository names *)

Lemma resolves_length depth fuel owner s repos ids s' :
  resolves depth fuel owner s repos ids s' -> length ids = length repos.
Proof. induction 1; simpl; congruence. Qed.

Lemma resolveRepositories_resolves depth fuel owner repos acc s ids' s' :
  resolveRepositories (CreateInstallationToken depth fuel) fuel owner acc repos s
  = (Ok ids', s') ->
  exists ids, ids' = acc ++ ids /\ resolves depth fuel owner s repos ids s'.
Proof.
  revert acc s. induction repos as [| repo repos IH]; intros acc s; simpl.
  - intros E. injection E as <- <-. exists []. rewrite app_nil_r.
    split; [reflexivity | constructor].
  - intros E.
    apply bind_inv in E as [(id & s1 & Eg & E) | [(e & _ & ?) | (x & _ & ?)]];
      [| discriminate ..].
    apply IH in E as (ids & -> & Hres). exists (id :: ids).
    rewrite <- app_assoc. split; [reflexivity |].
    now apply resolves_cons with (s1 := s1).
Qed.

(** The loop stops at the first name whose resolution fails. *)
Lemma resolves_abort depth fuel owner s pre ids s2 repo post e s3 acc :
  resolves depth fuel owner s pre ids s2 ->
  getRepositoryID depth fuel owner repo s2 = (Err e, s3) ->
  resolveRepositories (CreateInstallationToken depth fuel) fuel owner acc
    (pre ++ repo :: post) s = (Err e, s3).
Proof.
  intros Hres Ef. revert acc.
  induction Hres as [s | s r id s1 repos ids s' Eg Hres IH]; intros acc; simpl.
  - unfold bind. unfold getRepositoryID in Ef. now rewrite Ef.
  - unfold bind at 1. unfold getRepositoryID in Eg. rewrite Eg. now apply IH.
Qed.

(** ** Messages *)

Lemma length_append (a b : string) :
  String.length (a +:+ b) = (String.length a + String.length b)%nat.
Proof. induction a as [| c a IH]; simpl; [reflexivity | now rewrite IH]. Qed.

(** An error handed on as it is carries no annotation. *)
Lemma RemoteError_not_annotated msg : ~ annotates (RemoteError msg) msg.
Proof.
  intros (text & Hne & E). simpl in E. apply Hne.
  assert (String.length text = O) as Hl.
  { apply (f_equal String.length) in E. rewrite length_append in E. lia. }
  now destruct text.
Qed.

(** ** One call after the other *)


Lemma pageTrace_all {A} (ev : ListOptions -> reply (list A * Response) -> Event)
  opt evs pages e :
  pageTrace ev opt evs pages e ->
  Forall (fun e' => exists opt' r, e' = ev opt' r) evs.
Proof. induction 1; repeat constructor; eauto. Qed.



(** * The claims *)

(** C9.  The nil dereference of [updateRepositories] is out of reach of
    the public entry point: [CreateInstallationToken] calls
    [getRepositoryID] only after [getInstallationID] has found an
    installation of the same owner, every later change of the list of
    installations is made by a [getInstallationID] that finds one again,
    so for every depth bound, fuel, input and state, and whatever the
    collaborators reply, the run does not panic. *)
Theorem CreateInstallationToken_never_panics
  depth fuel owner repos permissions s :
  fst (CreateInstallationToken depth fuel owner repos permissions s) <> Halt Panic.
Proof.
  destruct depth as [| depth]; [easy |].
  destruct (CreateInstallationToken (S depth) fuel owner repos permissions s)
    as [o s'] eqn:E.
  apply CreateInstallationToken_run in E as (evs & _ & _ & _ & Hh).
  simpl. intros ->. now destruct (Hh Panic eq_refl) as [[? _] | [? _]].
Qed.

(** C4, as amended.  A refresh of the repositories that is due obtains
    its token from [CreateInstallationToken] with no repository name and
    no permission: when that call fails, its result is the result of the
    refresh and nothing is done after it; when it returns a token, its
    last remote call was the request for that token, with no repository
    and no permission, and the refresh goes on to list the repositories
    with it.  That call names no repository, so its run does not depend
    on the function that would resolve one (it never calls
    [getRepositoryID] or [updateRepositories]); the chain
    [CreateInstallationToken -> getRepositoryID -> updateRepositories ->
    CreateInstallationToken] therefore stops at the first nested call: a
    depth bound of two gives the run of every larger bound.  A run
    returns unless a listing of the remote goes on without end: a run
    that does not return was cut off in a page loop, after as many pages
    in a row that each named a further page as there is fuel. *)
Theorem bootstrap_without_recursion
  depth fuel owner repos permissions s o s' :
  CreateInstallationToken (S (S depth)) fuel owner repos permissions s = (o, s') ->
  (forall mint s0,
     CreateInstallationToken_body mint fuel owner [] [] s0 =
     CreateInstallationToken 1 fuel owner [] [] s0) /\
  (forall s0 o0 s0',
     updateRepositories (S depth) fuel owner s0 = (o0, s0') ->
     exists evs, calls s0' = calls s0 ++ evs /\ Forall unscoped evs) /\
  CreateInstallationToken 2 fuel owner repos permissions s = (o, s') /\
  (forall x, o = Halt x ->
     x = OutOfFuel /\
     exists evs, calls s' = calls s ++ evs /\ cutOff fuel evs) /\
  (forall s0 i now0 w0 o0 s0',
     lastInstallation (heap s0) owner None (installs s0) = Some i ->
     time_Now (world s0) = (now0, w0) ->
     RepositoriesUpdatedAt (deref (heap s0) i) + updateInterval s0 <= now0 ->
     updateRepositories (S depth) fuel owner s0 = (o0, s0') ->
     exists o1 s1,
       CreateInstallationToken (S depth) fuel owner [] [] (set_world w0 s0)
       = (o1, s1) /\
       match o1 with
       | Ok token =>
           exists pre id evs,
             calls s1 =
             calls s0 ++ pre ++
             [EvCreateInstallationToken id (mkTokenOptions [] []) (Served token)] /\
             Forall isListInstallations pre /\
             calls s0' = calls s1 ++ evs /\
             Forall (fun ev => exists opt r,
                       ev = EvListRepos (GetToken token) opt r) evs
       | Err e => o0 = Err e /\ s0' = s1
       | Halt x => o0 = Halt x /\ s0' = s1
       end).
Proof.
  intros E. split; [reflexivity |].
  split.
  { intros s0 o0 s0' E0.
    destruct (present_dec (heap s0) owner (installs s0)) as [Hp | Hn].
    - apply updateRepositories_run in E0 as (evs & Ec & _ & Hu & _); [| exact Hp].
      now exists evs.
    - rewrite (updateRepositories_nil _ _ _ _ Hn) in E0. injection E0 as <- <-.
      exists []. rewrite app_nil_r. split; [reflexivity | constructor]. }
  split; [rewrite <- E; symmetry; apply CreateInstallationToken_depth |].
  split.
  { intros x ->. apply CreateInstallationToken_run in E as (evs & Ec & _ & _ & Hh).
    destruct (Hh x eq_refl) as [[_ ?] | [-> Hc]]; [discriminate |].
    split; [reflexivity |]. now exists evs. }
  intros s0 i now0 w0 o0 s0' Ei En Hst E0. apply After_Add_false in Hst.
  apply updateRepositories_inv in E0. rewrite Ei in E0.
  destruct E0 as (now1 & w1 & En1 & E0). rewrite En in En1.
  injection En1 as <- <-. rewrite Hst in E0.
  destruct E0 as (o1 & s1 & Em & E0). exists o1, s1. split; [exact Em |].
  destruct o1 as [token | e | x]; [| exact E0 ..].
  destruct E0 as (evs & pages & e & w2 & Ht & _ & Ec' & _).
  simpl in Em.
  apply unscoped_run in Em as (evsI & evsM & Ec & _ & _ & Hk & Hm & _).
  simpl in Ec.
  destruct Hm as [[_ Hno] | (id & r & -> & _ & Er)];
    [now exfalso; apply (Hno token) |].
  symmetry in Er. apply mintOutcome_Ok in Er as ->.
  exists evsI, id, evs. split; [exact Ec |]. split; [exact Hk |].
  split; [exact Ec' |]. now apply pageTrace_all in Ht.
Qed.

(** C7, as amended.  A refused remote call is the last remote call of the
    invocation (no retry, nothing after it), and the invocation returns an
    error made from the refusal: the error of a list operation is returned
    as it is, without annotation, the error of the token request is
    returned as [fmt.Errorf("failed to create token: %s", err)]; neither
    is an [ErrInstallationNotFound]. *)
Theorem remote_failure_propagated depth fuel owner repos permissions s :
  (forall o s', updateInstallations fuel s = (o, s') ->
     exists evs, calls s' = calls s ++ evs /\ propagates evs (failure o)) /\
  (forall o s', updateRepositories depth fuel owner s = (o, s') ->
     exists evs, calls s' = calls s ++ evs /\ propagates evs (failure o)) /\
  (forall o s',
     CreateInstallationToken depth fuel owner repos permissions s = (o, s') ->
     exists evs, calls s' = calls s ++ evs /\ propagates evs (failure o)) /\
  (forall ev msg,
     (forall key, propagated ev msg <> ErrInstallationNotFound key) /\
     Error (propagated ev msg) =
     match ev with
     | EvCreateInstallationToken _ _ _ => "failed to create token: " +:+ msg
     | _ => msg
     end).
Proof.
  split; [| split; [| split]].
  - intros o s' E.
    apply updateInstallations_run in E as (evs & Ec & _ & _ & _ & Hf & _).
    exists evs. split; [exact Ec | now apply faithful_propagates].
  - intros o s' E. destruct (present_dec (heap s) owner (installs s)) as [Hp | Hn].
    + apply updateRepositories_run in E as (evs & Ec & _ & _ & Hf & _); [| exact Hp].
      exists evs. split; [exact Ec | now apply faithful_propagates].
    + rewrite (updateRepositories_nil _ _ _ _ Hn) in E. injection E as <- <-.
      exists []. rewrite app_nil_r. split; [reflexivity |].
      apply faithful_propagates, faithful_nil.
  - intros o s' E. destruct depth as [| depth].
    + injection E as <- <-. exists []. rewrite app_nil_r. split; [reflexivity |].
      apply faithful_propagates, faithful_nil.
    + apply CreateInstallationToken_run in E as (evs & Ec & _ & Hf & _).
      exists evs. split; [exact Ec | now apply faithful_propagates].
  - intros ev msg. split; [intros key; apply propagated_not_NotFound |].
    now destruct ev.
Qed.

(** C10.  [CreateInstallationToken] without repository names resolves no
    repository: it logs no [ListRepos] call and writes to no installation
    object, so every installation keeps its [Repositories] and its
    [RepositoriesUpdatedAt]; objects are only added to the store, by a
    refresh of the list of installations, and while that list is fresh
    the list, its timestamp and the store stay as they are. *)
Theorem unscoped_request_frame depth fuel owner permissions s o s' :
  CreateInstallationToken depth fuel owner [] permissions s = (o, s') ->
  (exists evs, calls s' = calls s ++ evs /\ Forall (fun ev => ~ isListRepos ev) evs) /\
  (forall p i, heap s !! p = Some i -> heap s' !! p = Some i) /\
  updateInterval s' = updateInterval s /\
  (forall now w1,
     time_Now (world s) = (now, w1) ->
     now < installsUpdatedAt s + updateInterval s ->
     installs s' = installs s /\ installsUpdatedAt s' = installsUpdatedAt s /\
     heap s' = heap s).
Proof.
  destruct depth as [| depth].
  { intros E. injection E as <- <-. split; [exists []; now rewrite app_nil_r |].
    easy. }
  intros E. pose proof E as E'. simpl in E.
  apply unscoped_run in E as (evsI & evsM & Ec & Ei & Eh & Hk & Hm & _).
  split; [| split; [| split]].
  - exists (evsI ++ evsM). split; [exact Ec |]. apply Forall_app. split.
    + eapply Forall_impl; [exact Hk | now intros []].
    + destruct Hm as [[-> _] | (id & r & -> & _)]; repeat constructor. easy.
  - intros p i Hp. destruct Eh as [k ->]. now apply lookup_app_l_Some.
  - exact Ei.
  - intros now w1 En Hlt. apply After_Add_true in Hlt.
    simpl in E'. unfold CreateInstallationToken_body, bind at 1 in E'.
    rewrite (getInstallationID_fresh _ _ _ _ _ En Hlt) in E'.
    destruct (findInstallationID (heap s) owner (installs s)) as [id |];
      [| now injection E' as <- <-].
    change (bind (MintToken id (mkTokenOptions [] permissions))
              (fun r => match r with
                 | Refused msg =>
                     throw (Errorf ("failed to create token: "
                                    +:+ Error (RemoteError msg)))
                 | Served installationToken => ret installationToken
                 end) (set_world w1 s) = (o, s')) in E'.
    now apply requestToken_inv in E' as (r & w & _ & -> & _).
Qed.

(** C6.  After a refresh that succeeded or was skipped, an owner without
    installation in the list makes [getInstallationID] fail with
    [ErrInstallationNotFound(owner)], and a repository name that none of
    the owner's installations lists makes [getRepositoryID] fail with
    [ErrInstallationNotFound("<owner>/<repo>")]; the message of the error
    is [installation not found: '<key>']. *)
Theorem not_found_carries_key depth fuel owner repo s s1 :
  (updateInstallations fuel s = (Ok tt, s1) ->
   ~ present (heap s1) owner (installs s1) ->
   getInstallationID fuel owner s = (Err (ErrInstallationNotFound owner), s1)) /\
  (updateRepositories depth fuel owner s = (Ok tt, s1) ->
   (forall p, p ∈ installs s1 -> Owner (deref (heap s1) p) = owner ->
      forall r, r ∈ Repositories (deref (heap s1) p) -> Name r <> repo) ->
   getRepositoryID depth fuel owner repo s =
   (Err (ErrInstallationNotFound (owner +:+ "/" +:+ repo)), s1)) /\
  (forall key,
     Error (ErrInstallationNotFound key) = "installation not found: '" +:+ key +:+ "'").
Proof.
  split; [| split; [| reflexivity]].
  - intros Eu Hn. apply findInstallationID_None in Hn.
    unfold getInstallationID, bind at 1. rewrite Eu. unfold bind, get.
    now rewrite Hn.
  - intros Eu Hn. apply findRepositoryID_None in Hn.
    unfold getRepositoryID, getRepositoryID_body, bind at 1.
    unfold updateRepositories in Eu. rewrite Eu. unfold bind, get.
    now rewrite Hn.
Qed.

(** C8.  A refresh asks for the first page with the page size of its list
    (10 for installations, 100 for repositories), then for each page the
    previous reply named, until a reply names none ([NextPage = 0]).  When
    the remote serves the pages [pages] in this way and the fuel covers
    their number, the refresh returns, and the new list is the pages put
    together in the order they were fetched; its length is the sum of
    their lengths.  ([updateRepositories] needs its token first, and
    stores the list through the pointer it found.) *)
Theorem pagination_exhaustive depth fuel owner s now w1 :
  time_Now (world s) = (now, w1) ->
  (forall pages w2 now' w3,
     installsUpdatedAt s + updateInterval s <= now ->
     paged client_ListInstallations (mkListOptions 0 10) w1 pages w2 ->
     time_Now w2 = (now', w3) ->
     (length pages <= fuel)%nat ->
     exists evs s',
       updateInstallations fuel s = (Ok tt, s') /\
       calls s' = calls s ++ evs /\
       pageTrace EvListInstallations (mkListOptions 0 10) evs pages Finished /\
       deref (heap s') <$> installs s' = newInstallation <$> concat pages /\
       length (installs s') = sum_list_with length pages /\
       installsUpdatedAt s' = now') /\
  (forall i token s1 pages w2 now' w3,
     lastInstallation (heap s) owner None (installs s) = Some i ->
     RepositoriesUpdatedAt (deref (heap s) i) + updateInterval s <= now ->
     CreateInstallationToken depth fuel owner [] [] (set_world w1 s) = (Ok token, s1) ->
     paged (client_ListRepos (GetToken token)) (mkListOptions 0 100) (world s1)
       pages w2 ->
     time_Now w2 = (now', w3) ->
     (length pages <= fuel)%nat ->
     exists evs s',
       updateRepositories depth fuel owner s = (Ok tt, s') /\
       calls s' = calls s1 ++ evs /\
       pageTrace (EvListRepos (GetToken token)) (mkListOptions 0 100) evs pages
         Finished /\
       heap s' =
       <[i := mkInstallation (ID (deref (heap s1) i)) (Owner (deref (heap s1) i))
               (newRepository <$> concat pages) now']> (heap s1) /\
       ((i < length (heap s))%nat ->
        Repositories (deref (heap s') i) = newRepository <$> concat pages /\
        RepositoriesUpdatedAt (deref (heap s') i) = now') /\
       length (newRepository <$> concat pages) = sum_list_with length pages).
Proof.
  intros En. split.
  - intros pages w2 now' w3 Hst Hp En' Hle. apply After_Add_false in Hst.
    destruct (installationsLoop_paged fuel [] (mkListOptions 0 10)
                (set_world w1 s) pages w2 Hp Hle) as (evs & Ht & El).
    simpl in El. eexists evs, _. split.
    { unfold updateInstallations, bind at 1, get. unfold bind at 1.
      rewrite (Now_eq _ _ _ En), Hst. unfold bind at 1. rewrite El.
      unfold bind, Now. simpl. rewrite En'. reflexivity. }
    simpl. split; [reflexivity |]. split; [exact Ht |].
    split; [rewrite <- (length_fmap newInstallation (concat pages));
            apply deref_seq_app |].
    split; [now rewrite length_seq, length_concat_sum | reflexivity].
  - intros i token s1 pages w2 now' w3 Ei Hst Em Hp En' Hle.
    apply After_Add_false in Hst.
    destruct (repositoriesLoop_paged fuel (GetToken token) []
                (mkListOptions 0 100) s1 pages w2 Hp Hle) as (evs & Ht & El).
    simpl in El. eexists evs, _. split.
    { unfold updateRepositories, updateRepositories_body, bind at 1, get.
      rewrite Ei. unfold bind at 1. rewrite (Now_eq _ _ _ En), Hst.
      unfold bind at 1. rewrite Em. unfold bind at 1. rewrite El.
      unfold bind, Now, storeRepositories. simpl. rewrite En'. reflexivity. }
    simpl. split; [reflexivity |]. split; [exact Ht |].
    split; [reflexivity |].
    split; [| now rewrite length_fmap, length_concat_sum].
    intros Hi. apply bootstrap_run in Em as (evs1 & _ & _ & Eh & _).
    simpl in Eh. destruct Eh as [k Ek].
    assert (i < length (heap s1))%nat as Hi1 by (rewrite Ek, length_app; lia).
    unfold deref. now rewrite list_lookup_insert_eq.
Qed.

(** C2.  A refresh is all or nothing.  A refused page ends
    [updateInstallations] with the error of that page, and whenever the
    call does not return [nil] the list of installations, its timestamp
    and every installation object are as before; list or timestamp differ
    afterwards only if the call returned [nil] and every page was served.
    The same holds for [updateRepositories] and the installation objects,
    which hold the lists of repositories and their timestamps. *)
Theorem refresh_all_or_nothing depth fuel owner s :
  (forall o s', updateInstallations fuel s = (o, s') ->
     exists evs,
       calls s' = calls s ++ evs /\
       propagates evs (failure o) /\
       (o <> Ok tt ->
        installs s' = installs s /\
        installsUpdatedAt s' = installsUpdatedAt s /\
        forall p i, heap s !! p = Some i -> heap s' !! p = Some i) /\
       (installs s' <> installs s \/ installsUpdatedAt s' <> installsUpdatedAt s ->
        o = Ok tt /\ Forall served evs)) /\
  (forall o s', updateRepositories depth fuel owner s = (o, s') ->
     exists evs,
       calls s' = calls s ++ evs /\
       propagates evs (failure o) /\
       (o <> Ok tt -> forall p i, heap s !! p = Some i -> heap s' !! p = Some i) /\
       ((exists p i, heap s !! p = Some i /\ heap s' !! p <> Some i) ->
        o = Ok tt /\ Forall served evs)).
Proof.
  split.
  - intros o s' E.
    apply updateInstallations_run in E as (evs & Ec & _ & Eh & _ & Hf & _ & Hu).
    exists evs. split; [exact Ec |]. split; [now apply faithful_propagates |].
    assert (o <> Ok tt ->
            installs s' = installs s /\
            installsUpdatedAt s' = installsUpdatedAt s /\
            forall p i, heap s !! p = Some i -> heap s' !! p = Some i) as Hu'.
    { intros Hn. destruct (Hu Hn) as [E1 E2]. do 2 (split; [assumption |]).
      intros p i Hp. destruct Eh as [k ->]. now apply lookup_app_l_Some. }
    split; [exact Hu' |]. intros Hch.
    destruct o as [[] | e | x].
    + split; [reflexivity | now apply faithful_None in Hf].
    + exfalso. destruct (Hu' ltac:(easy)) as (? & ? & _). now destruct Hch.
    + exfalso. destruct (Hu' ltac:(easy)) as (? & ? & _). now destruct Hch.
  - intros o s' E. destruct (present_dec (heap s) owner (installs s)) as [Hp | Hn].
    + apply updateRepositories_run in E as (evs & Ec & _ & _ & Hf & _ & _ & Hu);
        [| exact Hp].
      exists evs. split; [exact Ec |]. split; [now apply faithful_propagates |].
      assert (o <> Ok tt ->
              forall p i, heap s !! p = Some i -> heap s' !! p = Some i) as Hu'.
      { intros Hne p i Hl. destruct (Hu Hne) as [k ->].
        now apply lookup_app_l_Some. }
      split; [exact Hu' |]. intros (p & i & Hl & Hch).
      destruct o as [[] | e | x].
      * split; [reflexivity | now apply faithful_None in Hf].
      * exfalso. apply Hch. now apply Hu'.
      * exfalso. apply Hch. now apply Hu'.
    + rewrite (updateRepositories_nil _ _ _ _ Hn) in E. injection E as <- <-.
      exists []. rewrite app_nil_r. split; [reflexivity |].
      split; [apply faithful_propagates, faithful_nil |].
      split; [easy |]. intros (p & i & Hl & Hch). now exfalso.
Qed.



(** C5.  [CreateInstallationToken] resolves the repository names one
    after the other, in the order given, a name that occurs twice twice.
    When it returns a token, the last remote call is the token request,
    for the installation of the owner, with the identities the
    resolutions returned, in the order of the names, and the permissions
    given.  When a resolution fails, its error is the result, nothing is
    done after it, and no token request that names a repository was sent
    (the only token requests are the unscoped ones of
    [updateRepositories]).  Without names the request names no
    repository. *)
Theorem repositories_resolved_in_order depth fuel owner repos permissions s :
  (forall token s',
     CreateInstallationToken (S depth) fuel owner repos permissions s
     = (Ok token, s') ->
     exists id s1 ids s2,
       getInstallationID fuel owner s = (Ok id, s1) /\
       resolves depth fuel owner s1 repos ids s2 /\
       length ids = length repos /\
       calls s' =
       calls s2 ++
       [EvCreateInstallationToken id (mkTokenOptions ids permissions) (Served token)]) /\
  (forall id s1 pre repo post ids s2 e s3,
     repos = pre ++ repo :: post ->
     getInstallationID fuel owner s = (Ok id, s1) ->
     resolves depth fuel owner s1 pre ids s2 ->
     getRepositoryID depth fuel owner repo s2 = (Err e, s3) ->
     CreateInstallationToken (S depth) fuel owner repos permissions s = (Err e, s3) /\
     exists evs, calls s3 = calls s ++ evs /\ Forall unscoped evs) /\
  (repos = [] ->
   forall id s1 r w,
     getInstallationID fuel owner s = (Ok id, s1) ->
     client_CreateInstallationToken id (mkTokenOptions [] permissions) (world s1)
     = (r, w) ->
     CreateInstallationToken (S depth) fuel owner repos permissions s =
     (mintOutcome r,
      set_world w
        (log_call (EvCreateInstallationToken id (mkTokenOptions [] permissions) r)
           s1))).
Proof.
  split; [| split].
  - intros token s' E. simpl in E. unfold CreateInstallationToken_body in E.
    apply bind_inv in E as [(id & s1 & Eg & E) | [(e & _ & ?) | (x & _ & ?)]];
      [| discriminate ..].
    apply bind_inv in E as [(ids & s2 & Er & E) | [(e & _ & ?) | (x & _ & ?)]];
      [| discriminate ..].
    apply requestToken_inv in E as (r & w & _ & -> & Eo).
    symmetry in Eo. apply mintOutcome_Ok in Eo as ->.
    apply resolveRepositories_resolves in Er as (ids' & -> & Hres).
    exists id, s1, ids', s2. split; [exact Eg |]. split; [exact Hres |].
    split; [now apply resolves_length in Hres | reflexivity].
  - intros id s1 pre repo post ids s2 e s3 -> Eg Hres Ef. split.
    + simpl. unfold CreateInstallationToken_body, bind at 1. rewrite Eg.
      unfold bind at 1.
      now rewrite (resolves_abort _ _ _ _ _ _ _ _ post _ _ [] Hres Ef).
    + pose proof Eg as Eg'.
      apply getInstallationID_run in Eg
        as (evs & Ec & _ & _ & Hk & _ & _ & Hid).
      specialize (Hid id eq_refl). apply findInstallationID_present in Hid.
      pose proof (resolves_abort _ _ _ _ _ _ _ _ post _ _ [] Hres Ef) as Er.
      apply resolveRepositories_run in Er as (evs' & Ec' & _ & Hu & _);
        [| exact Hid].
      exists (evs ++ evs'). rewrite Ec', Ec, app_assoc. split; [reflexivity |].
      apply Forall_app. split; [now apply isListInstallations_unscoped | exact Hu].
  - intros -> id s1 r w Eg Er. simpl.
    unfold CreateInstallationToken_body, bind at 1. rewrite Eg.
    unfold bind, MintToken. simpl. rewrite Er. now destruct r.
Qed.

End Facts.

(** * The claims on the scripted world *)

(** C1.  The owner is compared as it is given: logins are stored in lower
    case, the key is not lowered.  With the installation [{7, "Acme"}]
    fetched, the key ["acme"] resolves to [7], and the key ["Acme"], whose
    lower-casing is that of the login, is not found. *)
Theorem mixed_case_owner_not_found :
  ToLower "Acme" = ToLower "acme" /\
  fst (getInstallationID 5 "acme" (New acmeWorld)) = Ok 7 /\
  fst (getInstallationID 5 "Acme" (New acmeWorld))
  = Err (ErrInstallationNotFound "Acme").
Proof. vm_compute. repeat split. Qed.

Lemma refresh_all_or_nothing_witness :
  let r := updateInstallations 5 (staleState secondPageFails) in
  fst r = Err (RemoteError "boom") /\
  installs (snd r) = [0%nat] /\
  installsUpdatedAt (snd r) = 2019 * year.
Proof.
  intros r.
  assert (updateInstallations 5 (staleState secondPageFails) = (fst r, snd r))
    as E by (vm_compute; reflexivity).
  assert (fst r <> Ok tt) as N by (vm_compute; discriminate).
  pose proof (proj1 (refresh_all_or_nothing 1 5 "acme"
                       (staleState secondPageFails)) (fst r) (snd r) E) as H.
  destruct H as (evs & _ & _ & Hu & _).
  destruct (Hu N) as (E1 & E2 & _).
  split; [vm_compute; reflexivity |]. split; [exact E1 | exact E2].
Defined.



Lemma bootstrap_without_recursion_witness :
  let r := CreateInstallationToken 3 5 "acme" ["infra"] [("metadata", "read")]
             (New acmeWorld) in
  let s0 := snd (getInstallationID 5 "acme" (New acmeWorld)) in
  let u := updateRepositories 2 5 "acme" s0 in
  CreateInstallationToken 2 5 "acme" ["infra"] [("metadata", "read")]
    (New acmeWorld) = (fst r, snd r) /\
  exists o1 s1,
    CreateInstallationToken 2 5 "acme" [] [] (set_world (world s0) s0) = (o1, s1) /\
    match o1 with
    | Ok token =>
        exists pre id evs,
          calls s1 =
          calls s0 ++ pre ++
          [EvCreateInstallationToken id (mkTokenOptions [] []) (Served token)] /\
          Forall isListInstallations pre /\
          calls (snd u) = calls s1 ++ evs /\
          Forall (fun ev => exists opt r',
                    ev = EvListRepos (GetToken token) opt r') evs
    | Err e => fst u = Err e /\ snd u = s1
    | Halt x => fst u = Halt x /\ snd u = s1
    end.
Proof.
  intros r s0 u.
  assert (CreateInstallationToken 3 5 "acme" ["infra"] [("metadata", "read")]
            (New acmeWorld) = (fst r, snd r)) as E by (vm_compute; reflexivity).
  pose proof (bootstrap_without_recursion 1 5 "acme" ["infra"]
                [("metadata", "read")] (New acmeWorld) (fst r) (snd r) E)
    as (_ & _ & H3 & _ & H5).
  split; [exact H3 |].
  assert (lastInstallation (heap s0) "acme" None (installs s0) = Some 0%nat) as Ei
    by (vm_compute; reflexivity).
  assert (time_Now (world s0) = (2020 * year, world s0)) as En
    by (vm_compute; reflexivity).
  assert (RepositoriesUpdatedAt (deref (heap s0) 0%nat) + updateInterval s0
          <= 2020 * year) as Hst by (vm_compute; discriminate).
  assert (updateRepositories 2 5 "acme" s0 = (fst u, snd u)) as Eu
    by (vm_compute; reflexivity).
  exact (H5 s0 0%nat _ _ (fst u) (snd u) Ei En Hst Eu).
Defined.

Lemma repositories_resolved_in_order_witness :
  let r := CreateInstallationToken 2 5 "acme" ["repoA"; "repoB"]
             [("contents", "read")] cachedState in
  calls (snd r) =
  [EvCreateInstallationToken 42
     (mkTokenOptions [1; 2] [("contents", "read")]) (Served (mkToken "scoped"))] /\
  exists id s1 ids s2,
    getInstallationID 5 "acme" cachedState = (Ok id, s1) /\
    resolves 1 5 "acme" s1 ["repoA"; "repoB"] ids s2 /\
    length ids = 2%nat /\
    calls (snd r) =
    calls s2 ++
    [EvCreateInstallationToken id (mkTokenOptions ids [("contents", "read")])
       (Served (mkToken "scoped"))].
Proof.
  intros r. split; [vm_compute; reflexivity |].
  assert (CreateInstallationToken 2 5 "acme" ["repoA"; "repoB"]
            [("contents", "read")] cachedState = (Ok (mkToken "scoped"), snd r))
    as E by (vm_compute; reflexivity).
  exact (proj1 (repositories_resolved_in_order 1 5 "acme" ["repoA"; "repoB"]
                  [("contents", "read")] cachedState)
           (mkToken "scoped") (snd r) E).
Defined.

Lemma not_found_carries_key_witness :
  getRepositoryID 1 5 "acme" "ghost" cachedState =
  (Err (ErrInstallationNotFound "acme/ghost"),
   set_world (world cachedState) cachedState).
Proof.
  assert (updateRepositories 1 5 "acme" cachedState =
          (Ok tt, set_world (world cachedState) cachedState)) as E
    by (vm_compute; reflexivity).
  apply (proj1 (proj2 (not_found_carries_key 1 5 "acme" "ghost" cachedState
                         (set_world (world cachedState) cachedState))) E).
  intros p Hp _ r Hr. apply list_elem_of_singleton in Hp as ->.
  vm_compute in Hr.
  repeat (apply elem_of_cons in Hr as [-> | Hr]; [discriminate |]).
  now apply elem_of_nil in Hr.
Defined.

Lemma remote_failure_propagated_witness :
  let r := CreateInstallationToken 2 5 "acme" [] [] (New refusingWorld) in
  exists evs,
    calls (snd r) = calls (New refusingWorld) ++ evs /\
    propagates evs (failure (fst r)).
Proof.
  intros r.
  assert (CreateInstallationToken 2 5 "acme" [] [] (New refusingWorld)
          = (fst r, snd r)) as E by (vm_compute; reflexivity).
  exact (proj1 (proj2 (proj2 (remote_failure_propagated 2 5 "acme" [] []
                                (New refusingWorld))))
           (fst r) (snd r) E).
Defined.

(** C7, as stated, fails: the refusal ["boom"] of the first page of
    installations comes back as the error whose message is ["boom"], with
    no annotation. *)
Lemma refused_page_returned_unannotated :
  let r := CreateInstallationToken 2 5 "acme" [] [] (New refusingWorld) in
  calls (snd r) = [EvListInstallations (mkListOptions 0 10) (Refused "boom")] /\
  exists e, fst r = Err e /\ Error e = "boom" /\ ~ annotates e "boom".
Proof.
  intros r. split; [vm_compute; reflexivity |].
  exists (RemoteError "boom"). split; [vm_compute; reflexivity |].
  split; [reflexivity | apply RemoteError_not_annotated].
Qed.

Lemma pagination_exhaustive_witness :
  exists evs s',
    updateInstallations 5 (staleState twoPages) = (Ok tt, s') /\
    calls s' = calls (staleState twoPages) ++ evs /\
    pageTrace EvListInstallations (mkListOptions 0 10) evs
      [[mkGhInstallation 7 "Acme"; mkGhInstallation 8 "Beta"];
       [mkGhInstallation 9 "Gamma"]] Finished /\
    deref (heap s') <$> installs s' =
    newInstallation <$>
      concat [[mkGhInstallation 7 "Acme"; mkGhInstallation 8 "Beta"];
              [mkGhInstallation 9 "Gamma"]] /\
    length (installs s') = 3%nat /\
    installsUpdatedAt s' = 2020 * year.
Proof.
  assert (time_Now (world (staleState twoPages)) = (2020 * year, twoPages)) as En
    by (vm_compute; reflexivity).
  assert (installsUpdatedAt (staleState twoPages)
          + updateInterval (staleState twoPages) <= 2020 * year) as Hst
    by (vm_compute; discriminate).
  assert (paged client_ListInstallations (mkListOptions 0 10) twoPages
            [[mkGhInstallation 7 "Acme"; mkGhInstallation 8 "Beta"];
             [mkGhInstallation 9 "Gamma"]]
            (mkScript [] (2020 * year) [] [] [])) as Hp.
  { eapply paged_next; [vm_compute; reflexivity | discriminate |].
    eapply paged_last; [vm_compute; reflexivity | reflexivity]. }
  assert (time_Now (mkScript [] (2020 * year) [] [] [])
          = (2020 * year, mkScript [] (2020 * year) [] [] [])) as En'
    by (vm_compute; reflexivity).
  exact (proj1 (pagination_exhaustive 1 5 "acme" (staleState twoPages) _ _ En)
           _ _ _ _ Hst Hp En' ltac:(simpl; lia)).
Defined.

Lemma unscoped_request_frame_witness :
  let r := CreateInstallationToken 1 5 "acme" [] [("contents", "read")]
             cachedState in
  (exists evs, calls (snd r) = calls cachedState ++ evs /\
               Forall (fun ev => ~ isListRepos ev) evs) /\
  (forall p i, heap cachedState !! p = Some i -> heap (snd r) !! p = Some i) /\
  updateInterval (snd r) = updateInterval cachedState /\
  (forall now w1,
     time_Now (world cachedState) = (now, w1) ->
     now < installsUpdatedAt cachedState + updateInterval cachedState ->
     installs (snd r) = installs cachedState /\
     installsUpdatedAt (snd r) = installsUpdatedAt cachedState /\
     heap (snd r) = heap cachedState).
Proof.
  intros r.
  assert (CreateInstallationToken 1 5 "acme" [] [("contents", "read")]
            cachedState = (fst r, snd r)) as E by (vm_compute; reflexivity).
  exact (unscoped_request_frame 1 5 "acme" [("contents", "read")] cachedState
           (fst r) (snd r) E).
Defined.

(** * Further facts about the cache *)

Section Cache.

Context {W : Type} `{Collaborators W}.

Implicit Types (s : State W) (h : list installation) (l : list ptr).

(** ** strings.ToLower *)

Lemma lowerByte_idempotent c : lowerByte (lowerByte c) = lowerByte c.
Proof. destruct c as [[] [] [] [] [] [] [] []]; reflexivity. Qed.

Lemma ToLower_idempotent str : ToLower (ToLower str) = ToLower str.
Proof.
  induction str as [| c str IH]; simpl; [reflexivity |].
  now rewrite lowerByte_idempotent, IH.
Qed.

(** ** Looking up what was fetched *)

(** The lookup reads the installations through their pointers only. *)
Lemma findInstallationID_objects h owner l (objs : list installation) :
  deref h <$> l = objs ->
  findInstallationID h owner l =
  ID <$> List.find (fun o => bool_decide (Owner o = owner)) objs.
Proof.
  intros <-. induction l as [| p l IH]; simpl; [reflexivity |].
  destruct (decide (Owner (deref h p) = owner)) as [E | N].
  - now rewrite bool_decide_eq_true_2.
  - now rewrite bool_decide_eq_false_2.
Qed.

Lemma find_newInstallation owner (lst : list ghInstallation) :
  ID <$> List.find (fun o => bool_decide (Owner o = owner)) (newInstallation <$> lst)
  = GetID <$> fetchedFor owner lst.
Proof.
  induction lst as [| i lst IH]; simpl; [reflexivity |].
  destruct (decide (ToLower (GetLogin i) = owner)) as [E | N].
  - now rewrite bool_decide_eq_true_2.
  - now rewrite bool_decide_eq_false_2.
Qed.

Lemma fetchedFor_None owner lst :
  ToLower owner <> owner -> fetchedFor owner lst = None.
Proof.
  intros Hn. induction lst as [| i lst IH]; simpl; [reflexivity |].
  destruct (decide (ToLower (GetLogin i) = owner)) as [E | N]; [| exact IH].
  exfalso. apply Hn. rewrite <- E. apply ToLower_idempotent.
Qed.

(** A refresh that is served [pages]. *)
Lemma updateInstallations_paged fuel s now w1 pages w2 now' w3 :
  time_Now (world s) = (now, w1) ->
  installsUpdatedAt s + updateInterval s <= now ->
  paged client_ListInstallations (mkListOptions 0 10) w1 pages w2 ->
  time_Now w2 = (now', w3) ->
  (length pages <= fuel)%nat ->
  exists evs,
    updateInstallations fuel s =
    (Ok tt,
     mkState (seq (length (heap s)) (length (concat pages))) now'
       (updateInterval s) (heap s ++ (newInstallation <$> concat pages)) w3
       (calls s ++ evs)).
Proof.
  intros En Hst Hp En' Hle. apply After_Add_false in Hst.
  destruct (installationsLoop_paged fuel [] (mkListOptions 0 10)
              (set_world w1 s) pages w2 Hp Hle) as (evs & _ & El).
  simpl in El. exists evs.
  unfold updateInstallations, bind at 1, get. unfold bind at 1.
  rewrite (Now_eq _ _ _ En), Hst. unfold bind at 1. rewrite El.
  unfold bind, Now. simpl. now rewrite En'.
Qed.

(** X2.  After a refresh that fetched ASCII logins, [getInstallationID]
    answers from what was fetched: the identity of the first fetched
    installation whose login, lowered, is the key as given, and
    [ErrInstallationNotFound] of the key when there is none. *)
Theorem getInstallationID_after_refresh fuel owner s now w1 pages w2 now' w3 :
  Forall (fun i => isASCII (GetLogin i) = true) (concat pages) ->
  time_Now (world s) = (now, w1) ->
  installsUpdatedAt s + updateInterval s <= now ->
  paged client_ListInstallations (mkListOptions 0 10) w1 pages w2 ->
  time_Now w2 = (now', w3) ->
  (length pages <= fuel)%nat ->
  fst (getInstallationID fuel owner s) =
  match fetchedFor owner (concat pages) with
  | Some i => Ok (GetID i)
  | None => Err (ErrInstallationNotFound owner)
  end.
Proof.
  intros _ En Hst Hp En' Hle.
  destruct (updateInstallations_paged fuel s _ _ _ _ _ _ En Hst Hp En' Hle)
    as (evs & Eu).
  unfold getInstallationID, bind at 1. rewrite Eu. unfold bind, get. simpl.
  rewrite (findInstallationID_objects _ _ _ (newInstallation <$> concat pages)).
  - rewrite find_newInstallation.
    now destruct (fetchedFor owner (concat pages)).
  - rewrite <- (length_fmap newInstallation (concat pages)).
    apply deref_seq_app.
Qed.

(** X4.  A refresh of the installations replaces every installation by a
    new object: afterwards each installation of the list has no
    repositories, the zero time as their timestamp, and an owner in lower
    case. *)
Theorem refresh_discards_repositories fuel s now w1 s' :
  time_Now (world s) = (now, w1) ->
  installsUpdatedAt s + updateInterval s <= now ->
  updateInstallations fuel s = (Ok tt, s') ->
  forall p, p ∈ installs s' ->
    Repositories (deref (heap s') p) = [] /\
    RepositoriesUpdatedAt (deref (heap s') p) = zeroTime /\
    ToLower (Owner (deref (heap s') p)) = Owner (deref (heap s') p).
Proof.
  intros En Hst E p Hp. apply After_Add_false in Hst.
  destruct (updateInstallations_stale _ _ _ _ _ _ En Hst E)
    as (evs & pages & e & w2 & _ & _ & _ & Eh & _ & He).
  destruct e; [| now destruct He as [? _] ..].
  destruct He as (now' & _ & _ & Ei & _).
  assert (deref (heap s') p ∈ deref (heap s') <$> installs s') as Hin
    by now apply list_elem_of_fmap_2.
  rewrite Eh, Ei in Hin.
  rewrite <- (length_fmap newInstallation (concat pages)), deref_seq_app in Hin.
  apply list_elem_of_fmap in Hin as (i & Ed & _). rewrite Eh, Ed. simpl.
  repeat split. apply ToLower_idempotent.
Qed.

(** ** Both caches fresh *)

Lemma set_world_id s : set_world (world s) s = s.
Proof. now destruct s. Qed.

Lemma updateRepositories_hit depth fuel owner s now i :
  time_Now (world s) = (now, world s) ->
  lastInstallation (heap s) owner None (installs s) = Some i ->
  now < RepositoriesUpdatedAt (deref (heap s) i) + updateInterval s ->
  updateRepositories depth fuel owner s = (Ok tt, s).
Proof.
  intros En Ei Hlt. apply After_Add_true in Hlt.
  unfold updateRepositories, updateRepositories_body, bind at 1, get.
  rewrite Ei. unfold bind. rewrite (Now_eq _ _ _ En), Hlt.
  now rewrite set_world_id.
Qed.

Lemma getRepositoryID_hit depth fuel owner repo s now i :
  time_Now (world s) = (now, world s) ->
  lastInstallation (heap s) owner None (installs s) = Some i ->
  now < RepositoriesUpdatedAt (deref (heap s) i) + updateInterval s ->
  getRepositoryID depth fuel owner repo s =
  (match findRepositoryID (heap s) owner repo (installs s) with
   | Some id => Ok id
   | None => Err (ErrInstallationNotFound (owner +:+ "/" +:+ repo))
   end, s).
Proof.
  intros En Ei Hlt.
  pose proof (updateRepositories_hit depth fuel owner s now i En Ei Hlt) as Eu.
  unfold getRepositoryID, getRepositoryID_body, bind at 1.
  unfold updateRepositories in Eu. rewrite Eu. unfold bind, get.
  now destruct (findRepositoryID (heap s) owner repo (installs s)).
Qed.

Lemma resolveRepositories_hit depth fuel owner s now i repos ids acc :
  time_Now (world s) = (now, world s) ->
  lastInstallation (heap s) owner None (installs s) = Some i ->
  now < RepositoriesUpdatedAt (deref (heap s) i) + updateInterval s ->
  Forall2 (fun repo id =>
             findRepositoryID (heap s) owner repo (installs s) = Some id)
    repos ids ->
  (resolveRepositories (CreateInstallationToken depth fuel) fuel owner acc repos s
   = (Ok (acc ++ ids), s)) /\
  (forall repo post,
     findRepositoryID (heap s) owner repo (installs s) = None ->
     resolveRepositories (CreateInstallationToken depth fuel) fuel owner acc
       (repos ++ repo :: post) s
     = (Err (ErrInstallationNotFound (owner +:+ "/" +:+ repo)), s)).
Proof.
  intros En Ei Hlt Hall. revert acc.
  induction Hall as [| repo id repos ids Ef Hall IH]; intros acc; simpl.
  - split; [now rewrite app_nil_r |]. intros repo post En0.
    unfold bind.
    pose proof (getRepositoryID_hit depth fuel owner repo s now i En Ei Hlt) as Eg.
    unfold getRepositoryID in Eg. now rewrite Eg, En0.
  - pose proof (getRepositoryID_hit depth fuel owner repo s now i En Ei Hlt) as Eg.
    unfold getRepositoryID in Eg. rewrite Ef in Eg.
    destruct (IH (acc ++ [id])) as [IH1 IH2]. split.
    + unfold bind at 1. rewrite Eg, IH1. now rewrite <- app_assoc.
    + intros repo' post En0. unfold bind at 1. rewrite Eg. now apply IH2.
Qed.

(** X5.  When the clock stands still and both caches are fresh for it,
    [CreateInstallationToken] answers from the caches: if every name is
    cached, its only remote call is the token request, with the cached
    identities in the order of the names; otherwise it stops at the first
    name that is not cached, with [ErrInstallationNotFound] of
    [owner/name], makes no remote call and leaves the state as it is. *)
Theorem cache_hit depth fuel owner repos permissions s now id i :
  time_Now (world s) = (now, world s) ->
  now < installsUpdatedAt s + updateInterval s ->
  findInstallationID (heap s) owner (installs s) = Some id ->
  lastInstallation (heap s) owner None (installs s) = Some i ->
  now < RepositoriesUpdatedAt (deref (heap s) i) + updateInterval s ->
  (forall ids r w,
     Forall2 (fun repo rid =>
                findRepositoryID (heap s) owner repo (installs s) = Some rid)
       repos ids ->
     client_CreateInstallationToken id (mkTokenOptions ids permissions) (world s)
     = (r, w) ->
     CreateInstallationToken (S depth) fuel owner repos permissions s =
     (mintOutcome r,
      set_world w
        (log_call (EvCreateInstallationToken id (mkTokenOptions ids permissions) r)
           s))) /\
  (forall pre ids repo post,
     repos = pre ++ repo :: post ->
     Forall2 (fun name rid =>
                findRepositoryID (heap s) owner name (installs s) = Some rid)
       pre ids ->
     findRepositoryID (heap s) owner repo (installs s) = None ->
     CreateInstallationToken (S depth) fuel owner repos permissions s =
     (Err (ErrInstallationNotFound (owner +:+ "/" +:+ repo)), s)).
Proof.
  intros En Hlt Eid Ei Hlt'. apply After_Add_true in Hlt.
  pose proof (getInstallationID_fresh fuel owner s now (world s) En Hlt) as Eg.
  rewrite Eid, set_world_id in Eg. split.
  - intros ids r w Hall Er. simpl.
    unfold CreateInstallationToken_body, bind at 1. rewrite Eg.
    unfold bind at 1.
    rewrite (proj1 (resolveRepositories_hit depth fuel owner s now i repos ids []
                      En Ei Hlt' Hall)).
    simpl. unfold bind, MintToken. rewrite Er. now destruct r.
  - intros pre ids repo post -> Hall En0. simpl.
    unfold CreateInstallationToken_body, bind at 1. rewrite Eg.
    unfold bind at 1.
    now rewrite (proj2 (resolveRepositories_hit depth fuel owner s now i pre ids []
                          En Ei Hlt' Hall) repo post En0).
Qed.

(** ** What a lookup returns is in the cache *)

Lemma findInstallationID_Some h owner l id :
  findInstallationID h owner l = Some id ->
  exists p, p ∈ l /\ Owner (deref h p) = owner /\ ID (deref h p) = id.
Proof.
  induction l as [| p l IH]; simpl; [discriminate |].
  destruct (decide (Owner (deref h p) = owner)) as [E | N].
  - intros Eid. injection Eid as <-. exists p. split; [left | easy].
  - intros Eid. destruct (IH Eid) as (q & Hq & Hs). exists q.
    split; [now right | exact Hs].
Qed.

Lemma findRepository_Some repo rs id :
  findRepository repo rs = Some id ->
  exists r, r ∈ rs /\ Name r = repo /\ repoID r = id.
Proof.
  induction rs as [| r rs IH]; simpl; [discriminate |].
  destruct (decide (Name r = repo)) as [E | N].
  - intros Eid. injection Eid as <-. exists r. split; [left | easy].
  - intros Eid. destruct (IH Eid) as (q & Hq & Hs). exists q.
    split; [now right | exact Hs].
Qed.

Lemma findRepositoryID_Some h owner repo l id :
  findRepositoryID h owner repo l = Some id ->
  exists p r, p ∈ l /\ Owner (deref h p) = owner /\
    r ∈ Repositories (deref h p) /\ Name r = repo /\ repoID r = id.
Proof.
  induction l as [| p l IH]; simpl; [discriminate |].
  assert (findRepositoryID h owner repo l = Some id ->
          exists q r, q ∈ p :: l /\ Owner (deref h q) = owner /\
            r ∈ Repositories (deref h q) /\ Name r = repo /\ repoID r = id) as IH'.
  { intros Eid. destruct (IH Eid) as (q & r & Hq & Hs). exists q, r.
    split; [now right | exact Hs]. }
  destruct (decide (Owner (deref h p) = owner)) as [E | N]; [| exact IH'].
  destruct (findRepository repo (Repositories (deref h p))) as [id' |] eqn:Er;
    [| exact IH'].
  intros Eid. injection Eid as <-.
  apply findRepository_Some in Er as (r & Hr & Hs). exists p, r.
  split; [left |]. split; [exact E |]. split; [exact Hr | exact Hs].
Qed.

(** X7.  An identity that is returned is in the cache: that of
    [getInstallationID] is the [ID] of an installation of the list owned
    by [owner], that of [getRepositoryID] is the [ID] of a repository named
    [repo] among the repositories of an installation of the list owned by
    [owner]. *)
Theorem resolution_sound depth fuel owner repo s :
  (forall id s', getInstallationID fuel owner s = (Ok id, s') ->
     exists p, p ∈ installs s' /\ Owner (deref (heap s') p) = owner /\
       ID (deref (heap s') p) = id) /\
  (forall id s', getRepositoryID depth fuel owner repo s = (Ok id, s') ->
     exists p r, p ∈ installs s' /\ Owner (deref (heap s') p) = owner /\
       r ∈ Repositories (deref (heap s') p) /\ Name r = repo /\ repoID r = id).
Proof.
  split.
  - intros id s' E. unfold getInstallationID in E.
    apply bind_inv in E as [(a & s1 & _ & E) | [(e & _ & ?) | (x & _ & ?)]];
      [| discriminate ..].
    unfold bind, get in E.
    destruct (findInstallationID (heap s1) owner (installs s1)) as [id' |] eqn:Ef;
      [| discriminate].
    injection E as <- <-. now apply findInstallationID_Some.
  - intros id s' E. unfold getRepositoryID, getRepositoryID_body in E.
    apply bind_inv in E as [(a & s1 & _ & E) | [(e & _ & ?) | (x & _ & ?)]];
      [| discriminate ..].
    unfold bind, get in E.
    destruct (findRepositoryID (heap s1) owner repo (installs s1)) as [id' |] eqn:Ef;
      [| discriminate].
    injection E as <- <-. now apply findRepositoryID_Some.
Qed.

(** ** A refresh of the installations inside [updateRepositories] *)

Lemma getInstallationID_refreshes fuel owner s now w1 id s1 :
  time_Now (world s) = (now, w1) ->
  installsUpdatedAt s + updateInterval s <= now ->
  getInstallationID fuel owner s = (Ok id, s1) ->
  exists pages,
    installs s1 = seq (length (heap s)) (length (concat pages)) /\
    heap s1 = heap s ++ (newInstallation <$> concat pages).
Proof.
  intros En Hst E. apply After_Add_false in Hst. unfold getInstallationID in E.
  apply bind_inv in E as [(a & sa & Eu & E) | [(e & _ & ?) | (x & _ & ?)]];
    [| discriminate ..].
  destruct a.
  destruct (updateInstallations_stale _ _ _ _ _ _ En Hst Eu)
    as (evs & pages & e & w2 & _ & _ & _ & Eh & _ & He).
  destruct e; [| now destruct He as [? _] ..].
  destruct He as (now' & _ & _ & Ei & _).
  unfold bind, get in E.
  destruct (findInstallationID (heap sa) owner (installs sa)); [| discriminate].
  injection E as _ <-. now exists pages.
Qed.

Lemma bootstrap_refreshes depth fuel owner permissions s now w1 token s1 :
  time_Now (world s) = (now, w1) ->
  installsUpdatedAt s + updateInterval s <= now ->
  CreateInstallationToken (S depth) fuel owner [] permissions s = (Ok token, s1) ->
  exists pages,
    installs s1 = seq (length (heap s)) (length (concat pages)) /\
    heap s1 = heap s ++ (newInstallation <$> concat pages).
Proof.
  intros En Hst E. simpl in E. unfold CreateInstallationToken_body in E.
  apply bind_inv in E as [(id & sa & Eg & E) | [(e & _ & ?) | (x & _ & ?)]];
    [| discriminate ..].
  apply (getInstallationID_refreshes _ _ _ _ _ _ _ En Hst) in Eg
    as (pages & Ei & Eh).
  change (bind (MintToken id (mkTokenOptions [] permissions))
            (fun r => match r with
               | Refused msg =>
                   throw (Errorf ("failed to create token: "
                                  +:+ Error (RemoteError msg)))
               | Served installationToken => ret installationToken
               end) sa = (Ok token, s1)) in E.
  apply requestToken_inv in E as (r & w & _ & -> & _). now exists pages.
Qed.

(** X6.  When the repositories of the owner are stale and, at the next
    reading of the clock, the installations are stale too, the token
    request of [updateRepositories] replaces the list of installations
    while [updateRepositories] still holds the pointer it found before:
    it stores the repositories in that object, which is no longer in the
    list.  The installations of the list then have no repositories, and
    [getRepositoryID] returns no identity: when the refresh succeeds it
    returns [ErrInstallationNotFound] of [owner/repo], whatever was
    listed. *)
Theorem nested_refresh_loses_repositories
  depth fuel owner repo s i now w1 now2 w2 :
  lastInstallation (heap s) owner None (installs s) = Some i ->
  (i < length (heap s))%nat ->
  time_Now (world s) = (now, w1) ->
  RepositoriesUpdatedAt (deref (heap s) i) + updateInterval s <= now ->
  time_Now w1 = (now2, w2) ->
  installsUpdatedAt s + updateInterval s <= now2 ->
  (forall s1, updateRepositories (S depth) fuel owner s = (Ok tt, s1) ->
     (i ∉ installs s1) /\
     (forall p, p ∈ installs s1 -> Repositories (deref (heap s1) p) = []) /\
     getRepositoryID (S depth) fuel owner repo s =
     (Err (ErrInstallationNotFound (owner +:+ "/" +:+ repo)), s1)) /\
  (forall o s', getRepositoryID (S depth) fuel owner repo s = (o, s') ->
     forall id, o <> Ok id).
Proof.
  intros Ei Hi En Hst En2 Hst2.
  assert (forall s1, updateRepositories (S depth) fuel owner s = (Ok tt, s1) ->
            (i ∉ installs s1) /\
            (forall p, p ∈ installs s1 -> Repositories (deref (heap s1) p) = []))
    as Hlost.
  { intros s1 E. apply updateRepositories_inv in E. rewrite Ei in E.
    destruct E as (now0 & w0 & En0 & E). rewrite En in En0.
    injection En0 as <- <-.
    apply After_Add_false in Hst. rewrite Hst in E.
    destruct E as (o1 & sm & Em & E).
    destruct o1 as [token | e | x]; [| now destruct E ..].
    destruct E as (evs & pages & e & w3 & _ & _ & _ & Einst & _ & _ & E).
    destruct e; [| now destruct E as [? _] ..].
    destruct E as (now' & _ & _ & Eheap).
    apply (bootstrap_refreshes _ _ _ _ (set_world w1 s) now2 w2) in Em
      as (fetched & Eim & Ehm); [| exact En2 | exact Hst2].
    simpl in Eim, Ehm. rewrite Einst, Eim. split.
    - intros Hin. apply elem_of_seq in Hin. lia.
    - intros p Hp. pose proof Hp as Hge. apply elem_of_seq in Hge.
      rewrite Eheap. unfold deref. rewrite list_lookup_insert_ne by lia.
      assert (deref (heap sm) p ∈ deref (heap sm) <$> installs sm) as Hin.
      { apply list_elem_of_fmap_2. now rewrite Eim. }
      rewrite Eim in Hin. rewrite Ehm in Hin at 2.
      rewrite <- (length_fmap newInstallation (concat fetched)),
        deref_seq_app in Hin.
      apply list_elem_of_fmap in Hin as (gi & Ed & _). unfold deref in Ed.
      exact (f_equal Repositories Ed). }
  assert (forall s1, updateRepositories (S depth) fuel owner s = (Ok tt, s1) ->
            getRepositoryID (S depth) fuel owner repo s =
            (Err (ErrInstallationNotFound (owner +:+ "/" +:+ repo)), s1)) as Hnf.
  { intros s1 E. destruct (Hlost s1 E) as [_ Hempty].
    unfold getRepositoryID, getRepositoryID_body, bind at 1.
    unfold updateRepositories in E. rewrite E. unfold bind, get.
    rewrite findRepositoryID_None; [reflexivity |].
    intros p Hp _ r Hr. rewrite (Hempty p Hp) in Hr. now apply elem_of_nil in Hr. }
  split.
  - intros s1 E. destruct (Hlost s1 E) as [H1 H2]. split; [exact H1 |].
    split; [exact H2 | now apply Hnf].
  - intros o s' E id ->.
    pose proof E as E'. unfold getRepositoryID, getRepositoryID_body in E'.
    apply bind_inv in E' as [(a & s1 & Eu & _) | [(e & _ & ?) | (x & _ & ?)]];
      [| discriminate ..].
    destruct a. rewrite (Hnf s1 Eu) in E. discriminate.
Qed.

(** ** The errors of [CreateInstallationToken] *)

Lemma expectedError_mono owner repos repos' e :
  (forall repo, repo ∈ repos -> repo ∈ repos') ->
  expectedError owner repos e -> expectedError owner repos' e.
Proof.
  intros Hsub [E | [(repo & Hr & E) | [E | E]]].
  - now left.
  - right. left. exists repo. split; [now apply Hsub | exact E].
  - right. right. now left.
  - right. right. now right.
Qed.

Lemma updateInstallations_error fuel s e s' :
  updateInstallations fuel s = (Err e, s') -> exists msg, e = RemoteError msg.
Proof.
  intros E. destruct (time_Now (world s)) as [now w1] eqn:En.
  destruct (After (Add (installsUpdatedAt s) (updateInterval s)) now) eqn:Ef.
  - rewrite (updateInstallations_fresh _ _ _ _ En Ef) in E. discriminate.
  - destruct (updateInstallations_stale _ _ _ _ _ _ En Ef E)
      as (evs & pages & x & w2 & _ & _ & _ & _ & _ & He).
    destruct x.
    + destruct He as (now' & _ & ? & _). discriminate.
    + destruct He as [Eo _]. injection Eo as ->. eauto.
    + destruct He as [Eo _]. discriminate.
Qed.

Lemma getInstallationID_error fuel owner s e s' :
  getInstallationID fuel owner s = (Err e, s') -> expectedError owner [] e.
Proof.
  unfold getInstallationID. intros E.
  apply bind_inv in E as [(a & s1 & _ & E) | [(e' & Eu & Ee) | (x & _ & ?)]];
    [| | discriminate].
  - unfold bind, get in E.
    destruct (findInstallationID (heap s1) owner (installs s1)); [discriminate |].
    injection E as <- _. now left.
  - injection Ee as ->. apply updateInstallations_error in Eu as [msg ->].
    right. right. left. eauto.
Qed.

Lemma mintOutcome_error owner r e :
  mintOutcome r = Err e -> expectedError owner [] e.
Proof.
  destruct r as [t | msg]; [discriminate |]. intros E. injection E as <-.
  right. right. right. eauto.
Qed.

Lemma bootstrap_error depth fuel owner permissions s e s' :
  CreateInstallationToken depth fuel owner [] permissions s = (Err e, s') ->
  expectedError owner [] e.
Proof.
  destruct depth as [| depth]; [discriminate |]. simpl.
  unfold CreateInstallationToken_body. intros E.
  apply bind_inv in E as [(id & s1 & _ & E) | [(e' & Eg & Ee) | (x & _ & ?)]];
    [| | discriminate].
  - change (bind (MintToken id (mkTokenOptions [] permissions))
              (fun r => match r with
                 | Refused msg =>
                     throw (Errorf ("failed to create token: "
                                    +:+ Error (RemoteError msg)))
                 | Served installationToken => ret installationToken
                 end) s1 = (Err e, s')) in E.
    apply requestToken_inv in E as (r & w & _ & _ & Eo). symmetry in Eo.
    now apply (mintOutcome_error owner) in Eo.
  - injection Ee as ->. now apply getInstallationID_error in Eg.
Qed.

Lemma updateRepositories_error depth fuel owner s e s' :
  updateRepositories depth fuel owner s = (Err e, s') ->
  expectedError owner [] e.
Proof.
  intros E. apply updateRepositories_inv in E.
  destruct (lastInstallation (heap s) owner None (installs s)) as [i |];
    [| now destruct E].
  destruct E as (now & w1 & _ & E). destruct (After _ now); [now destruct E |].
  destruct E as (o1 & s1 & Em & E). destruct o1 as [token | e1 | x].
  - destruct E as (evs & pages & x & w2 & _ & _ & _ & _ & _ & _ & E).
    destruct x.
    + destruct E as (now' & _ & ? & _). discriminate.
    + destruct E as [Eo _]. injection Eo as ->. right. right. left. eauto.
    + destruct E as [Eo _]. discriminate.
  - destruct E as [Eo ->]. injection Eo as ->.
    now apply bootstrap_error in Em.
  - now destruct E.
Qed.

Lemma getRepositoryID_error depth fuel owner repo s e s' :
  getRepositoryID depth fuel owner repo s = (Err e, s') ->
  expectedError owner [repo] e.
Proof.
  unfold getRepositoryID, getRepositoryID_body. intros E.
  apply bind_inv in E as [(a & s1 & _ & E) | [(e' & Eu & Ee) | (x & _ & ?)]];
    [| | discriminate].
  - unfold bind, get in E.
    destruct (findRepositoryID (heap s1) owner repo (installs s1)); [discriminate |].
    injection E as <- _. right. left. exists repo. split; [left | reflexivity].
  - injection Ee as ->.
    apply (updateRepositories_error depth) in Eu.
    eapply expectedError_mono; [| exact Eu]. intros r Hr. now apply elem_of_nil in Hr.
Qed.

Lemma resolveRepositories_error depth fuel owner repos ids s e s' :
  resolveRepositories (CreateInstallationToken depth fuel) fuel owner ids repos s
  = (Err e, s') ->
  expectedError owner repos e.
Proof.
  revert ids s. induction repos as [| repo repos IH]; intros ids s; simpl;
    [discriminate |].
  intros E.
  apply bind_inv in E as [(id & s1 & _ & E) | [(e' & Eg & Ee) | (x & _ & ?)]];
    [| | discriminate].
  - apply IH in E. eapply expectedError_mono; [| exact E].
    intros r Hr. now right.
  - injection Ee as ->. apply (getRepositoryID_error depth) in Eg.
    eapply expectedError_mono; [| exact Eg].
    intros r Hr. apply list_elem_of_singleton in Hr as ->. left.
Qed.

(** X8.  The errors of [CreateInstallationToken] are of four kinds:
    [ErrInstallationNotFound] of the owner, [ErrInstallationNotFound] of
    [owner/repo] for one of the names given, an error of a list operation
    as the remote returned it, and ["failed to create token: "] followed
    by the message of the remote. *)
Theorem CreateInstallationToken_errors
  depth fuel owner repos permissions s e s' :
  CreateInstallationToken depth fuel owner repos permissions s = (Err e, s') ->
  expectedError owner repos e.
Proof.
  destruct depth as [| depth]; [discriminate |]. simpl.
  unfold CreateInstallationToken_body. intros E.
  apply bind_inv in E as [(id & s1 & _ & E) | [(e' & Eg & Ee) | (x & _ & ?)]];
    [| | discriminate].
  - apply bind_inv in E as [(ids & s2 & _ & E) | [(e' & Er & Ee) | (x & _ & ?)]];
      [| | discriminate].
    + apply requestToken_inv in E as (r & w & _ & _ & Eo). symmetry in Eo.
      apply (mintOutcome_error owner) in Eo.
      eapply expectedError_mono; [| exact Eo].
      intros r' Hr. now apply elem_of_nil in Hr.
    + injection Ee as ->. now apply resolveRepositories_error in Er.
  - injection Ee as ->. apply getInstallationID_error in Eg.
    eapply expectedError_mono; [| exact Eg].
    intros r' Hr. now apply elem_of_nil in Hr.
Qed.

(** ** A new [App] *)

Lemma getInstallationID_first_call fuel owner s now w1 o s' :
  fuel <> O ->
  time_Now (world s) = (now, w1) ->
  installsUpdatedAt s + updateInterval s <= now ->
  getInstallationID fuel owner s = (o, s') ->
  exists r rest,
    calls s' = calls s ++ EvListInstallations (mkListOptions 0 10) r :: rest /\
    (forall id, o = Ok id -> present (heap s') owner (installs s')).
Proof.
  intros Hfuel En Hst E. apply After_Add_false in Hst.
  assert (forall o1 s1, updateInstallations fuel s = (o1, s1) ->
            exists r rest,
              calls s1 = calls s ++ EvListInstallations (mkListOptions 0 10) r :: rest)
    as Hu.
  { intros o1 s1 Eu.
    destruct (updateInstallations_stale _ _ _ _ _ _ En Hst Eu)
      as (evs & pages & e & w2 & Ht & Hc & Ec & _).
    pose proof (pageTrace_requests _ _ _ _ _ Ht) as Hr.
    destruct evs as [| ev evs].
    { exfalso. apply pageTrace_nil in Ht. specialize (Hc Ht). simpl in Hc.
      congruence. }
    destruct Hr as [[r ->] _]. now exists r, evs. }
  unfold getInstallationID in E.
  apply bind_inv in E as [(a & s1 & Eu & E) | [(e & Eu & ->) | (x & Eu & ->)]];
    destruct (Hu _ _ Eu) as (r & rest & Ec).
  - unfold bind, get in E.
    destruct (findInstallationID (heap s1) owner (installs s1)) as [id |] eqn:Ef;
      injection E as <- <-; exists r, rest; (split; [exact Ec |]).
    + intros _ _. now apply findInstallationID_present in Ef.
    + discriminate.
  - exists r, rest. split; [exact Ec | discriminate].
  - exists r, rest. split; [exact Ec | discriminate].
Qed.

(** X1.  A new [App] has nothing cached and the zero time as the
    timestamp of its installations: once the clock reads a minute or more,
    the first remote call of [CreateInstallationToken] on it asks for page
    [0] of the installations, ten to a page. *)
Theorem New_first_call depth fuel owner repos permissions w now w1 o s' :
  fuel <> O ->
  time_Now w = (now, w1) ->
  1 * Minute <= now ->
  CreateInstallationToken (S depth) fuel owner repos permissions (New w) = (o, s') ->
  exists r rest,
    calls s' = EvListInstallations (mkListOptions 0 10) r :: rest.
Proof.
  intros Hfuel En Hmin E. simpl in E. unfold CreateInstallationToken_body in E.
  assert (forall o1 s1, getInstallationID fuel owner (New w) = (o1, s1) ->
            exists r rest,
              calls s1 = EvListInstallations (mkListOptions 0 10) r :: rest /\
              (forall id, o1 = Ok id -> present (heap s1) owner (installs s1)))
    as Hg.
  { intros o1 s1 Eg.
    now apply (getInstallationID_first_call fuel owner (New w) now w1) in Eg. }
  apply bind_inv in E as [(id & s1 & Eg & E) | [(e & Eg & ->) | (x & Eg & ->)]];
    destruct (Hg _ _ Eg) as (r & rest & Ec & Hp).
  2, 3: now exists r, rest.
  specialize (Hp id eq_refl).
  apply bind_inv in E as [(ids & s2 & Er & E) | [(e & Er & ->) | (x & Er & ->)]];
    apply resolveRepositories_run in Er as (evs & Ec' & _); try exact Hp.
  2, 3: exists r, (rest ++ evs); now rewrite Ec', Ec.
  apply requestToken_inv in E as (r' & w' & _ & -> & _). simpl.
  exists r, (rest ++ evs ++ [EvCreateInstallationToken id (mkTokenOptions ids permissions) r']).
  rewrite Ec', Ec. simpl. now rewrite <- app_assoc.
Qed.

(** ** The invariant of the cache *)

Lemma cacheInv_same s s' :
  installs s' = installs s -> heap s' = heap s -> cacheInv s -> cacheInv s'.
Proof. intros Ei Eh Hinv p. rewrite Ei, Eh. apply Hinv. Qed.

Lemma cacheInv_grow s s' objs :
  installs s' = installs s -> heap s' = heap s ++ objs ->
  cacheInv s -> cacheInv s'.
Proof.
  intros Ei Eh Hinv p Hp. rewrite Ei in Hp. destruct (Hinv p Hp) as [Hlt Hlow].
  rewrite Eh, length_app. split; [lia |].
  unfold deref in *. now rewrite lookup_app_l by exact Hlt.
Qed.

Lemma cacheInv_fetched s s' (fetched : list ghInstallation) :
  installs s' = seq (length (heap s)) (length fetched) ->
  heap s' = heap s ++ (newInstallation <$> fetched) ->
  cacheInv s'.
Proof.
  intros Ei Eh p Hp. rewrite Ei in Hp. pose proof Hp as Hin.
  apply elem_of_seq in Hp. rewrite Eh, length_app, length_fmap. split; [lia |].
  assert (deref (heap s ++ (newInstallation <$> fetched)) p ∈
          deref (heap s ++ (newInstallation <$> fetched)) <$>
            seq (length (heap s)) (length (newInstallation <$> fetched))) as Hd.
  { apply list_elem_of_fmap_2. now rewrite length_fmap. }
  rewrite deref_seq_app in Hd. apply list_elem_of_fmap in Hd as (gi & Ed & _).
  rewrite Ed. simpl. apply ToLower_idempotent.
Qed.

Lemma cacheInv_store s s' i id rs t :
  installs s' = installs s ->
  heap s' = <[i := mkInstallation id (Owner (deref (heap s) i)) rs t]> (heap s) ->
  cacheInv s -> cacheInv s'.
Proof.
  intros Ei Eh Hinv p Hp. rewrite Ei in Hp. destruct (Hinv p Hp) as [Hlt Hlow].
  rewrite Eh, length_insert. split; [exact Hlt |].
  now rewrite deref_insert_Owner.
Qed.

Lemma cacheInv_updateInstallations fuel s o s' :
  updateInstallations fuel s = (o, s') -> cacheInv s -> cacheInv s'.
Proof.
  intros E Hinv. destruct (time_Now (world s)) as [now w1] eqn:En.
  destruct (After (Add (installsUpdatedAt s) (updateInterval s)) now) eqn:Ef.
  - rewrite (updateInstallations_fresh _ _ _ _ En Ef) in E.
    injection E as _ <-. exact Hinv.
  - destruct (updateInstallations_stale _ _ _ _ _ _ En Ef E)
      as (evs & pages & e & w2 & _ & _ & _ & Eh & _ & He).
    destruct e.
    + destruct He as (now' & _ & _ & Ei & _).
      now apply (cacheInv_fetched s s' (concat pages)).
    + destruct He as (_ & Ei & _). now apply (cacheInv_grow s s' _ Ei Eh).
    + destruct He as (_ & Ei & _). now apply (cacheInv_grow s s' _ Ei Eh).
Qed.

Lemma cacheInv_getInstallationID fuel owner s o s' :
  getInstallationID fuel owner s = (o, s') -> cacheInv s -> cacheInv s'.
Proof.
  unfold getInstallationID. intros E Hinv.
  apply bind_inv in E as [(a & s1 & Eu & E) | [(e & Eu & _) | (x & Eu & _)]];
    apply cacheInv_updateInstallations in Eu; try exact Hinv; try exact Eu.
  unfold bind, get in E.
  destruct (findInstallationID (heap s1) owner (installs s1));
    injection E as _ <-; exact Eu.
Qed.

Lemma cacheInv_bootstrap depth fuel owner permissions s o s' :
  CreateInstallationToken depth fuel owner [] permissions s = (o, s') ->
  cacheInv s -> cacheInv s'.
Proof.
  destruct depth as [| depth]; simpl.
  { intros E. now injection E as _ <-. }
  unfold CreateInstallationToken_body. intros E Hinv.
  apply bind_inv in E as [(id & s1 & Eg & E) | [(e & Eg & _) | (x & Eg & _)]];
    apply cacheInv_getInstallationID in Eg; try exact Hinv; try exact Eg.
  change (bind (MintToken id (mkTokenOptions [] permissions))
            (fun r => match r with
               | Refused msg =>
                   throw (Errorf ("failed to create token: "
                                  +:+ Error (RemoteError msg)))
               | Served installationToken => ret installationToken
               end) s1 = (o, s')) in E.
  apply requestToken_inv in E as (r & w & _ & -> & _). exact Eg.
Qed.

Lemma cacheInv_updateRepositories depth fuel owner s o s' :
  updateRepositories depth fuel owner s = (o, s') -> cacheInv s -> cacheInv s'.
Proof.
  intros E Hinv. apply updateRepositories_inv in E.
  destruct (lastInstallation (heap s) owner None (installs s)) as [i |];
    [| now destruct E as [_ ->]].
  destruct E as (now & w1 & _ & E).
  destruct (After _ now); [now destruct E as [_ ->] |].
  destruct E as (o1 & s1 & Em & E).
  apply cacheInv_bootstrap in Em; [| exact Hinv].
  destruct o1 as [token | e | x]; [| now destruct E as [_ ->] ..].
  destruct E as (evs & pages & e & w2 & _ & _ & _ & Ei & _ & _ & E).
  destruct e.
  - destruct E as (now' & _ & _ & Eh). now apply (cacheInv_store s1 s' _ _ _ _ Ei Eh).
  - destruct E as (_ & Eh & _). now apply (cacheInv_same s1 s').
  - destruct E as (_ & Eh & _). now apply (cacheInv_same s1 s').
Qed.

Lemma cacheInv_getRepositoryID depth fuel owner repo s o s' :
  getRepositoryID depth fuel owner repo s = (o, s') -> cacheInv s -> cacheInv s'.
Proof.
  unfold getRepositoryID, getRepositoryID_body. intros E Hinv.
  apply bind_inv in E as [(a & s1 & Eu & E) | [(e & Eu & _) | (x & Eu & _)]];
    apply (cacheInv_updateRepositories depth) in Eu; try exact Hinv; try exact Eu.
  unfold bind, get in E.
  destruct (findRepositoryID (heap s1) owner repo (installs s1));
    injection E as _ <-; exact Eu.
Qed.

Lemma cacheInv_resolveRepositories depth fuel owner repos ids s o s' :
  resolveRepositories (CreateInstallationToken depth fuel) fuel owner ids repos s
  = (o, s') ->
  cacheInv s -> cacheInv s'.
Proof.
  revert ids s. induction repos as [| repo repos IH]; intros ids s; simpl.
  - intros E. now injection E as _ <-.
  - intros E Hinv.
    apply bind_inv in E as [(id & s1 & Eg & E) | [(e & Eg & _) | (x & Eg & _)]];
      apply (cacheInv_getRepositoryID depth) in Eg; try exact Hinv; try exact Eg.
    now apply IH in E.
Qed.

(** X9.  The cache of a new [App] has the invariant, and
    [CreateInstallationToken] keeps it, however it ends: every pointer of
    the list of installations refers to an object of the store, and every
    owner in the list is in lower case. *)
Theorem cache_invariant depth fuel owner repos permissions s o s' (w : W) :
  cacheInv (New w) /\
  (cacheInv s ->
   CreateInstallationToken depth fuel owner repos permissions s = (o, s') ->
   cacheInv s').
Proof.
  split; [intros p Hp; now apply elem_of_nil in Hp |].
  intros Hinv E. destruct depth as [| depth]; simpl in E.
  { now injection E as _ <-. }
  unfold CreateInstallationToken_body in E.
  apply bind_inv in E as [(id & s1 & Eg & E) | [(e & Eg & _) | (x & Eg & _)]];
    apply cacheInv_getInstallationID in Eg; try exact Hinv; try exact Eg.
  apply bind_inv in E as [(ids & s2 & Er & E) | [(e & Er & _) | (x & Er & _)]];
    apply cacheInv_resolveRepositories in Er; try exact Eg; try exact Er.
  apply requestToken_inv in E as (r & w' & _ & -> & _). exact Er.
Qed.

(** X3.  On a cache with the invariant, an owner that is not in lower
    case is never served: [CreateInstallationToken] returns no token for
    it, whatever the remote holds. *)
Theorem mixed_case_owner_never_served depth fuel owner repos permissions s o s' :
  cacheInv s ->
  ToLower owner <> owner ->
  CreateInstallationToken depth fuel owner repos permissions s = (o, s') ->
  forall token, o <> Ok token.
Proof.
  intros Hinv Hn E token ->. destruct depth as [| depth]; [discriminate |].
  simpl in E. unfold CreateInstallationToken_body in E.
  apply bind_inv in E as [(id & s1 & Eg & _) | [(e & _ & ?) | (x & _ & ?)]];
    [| discriminate ..].
  pose proof (cacheInv_getInstallationID _ _ _ _ _ Eg Hinv) as Hinv1.
  unfold getInstallationID in Eg.
  apply bind_inv in Eg as [(a & sa & _ & Eg) | [(e & _ & ?) | (x & _ & ?)]];
    [| discriminate ..].
  unfold bind, get in Eg.
  destruct (findInstallationID (heap sa) owner (installs sa)) as [id' |] eqn:Ef;
    [| discriminate].
  injection Eg as _ <-.
  apply findInstallationID_Some in Ef as (p & Hp & Eo & _).
  destruct (Hinv1 p Hp) as [_ Hlow]. rewrite Eo in Hlow. contradiction.
Qed.

(** ** A refresh of the repositories on fresh installations *)

Lemma updateRepositories_refresh_eq
  depth fuel owner s i id now w1 now2 w2 token w3 pages w4 now' w5 :
  lastInstallation (heap s) owner None (installs s) = Some i ->
  findInstallationID (heap s) owner (installs s) = Some id ->
  time_Now (world s) = (now, w1) ->
  RepositoriesUpdatedAt (deref (heap s) i) + updateInterval s <= now ->
  time_Now w1 = (now2, w2) ->
  now2 < installsUpdatedAt s + updateInterval s ->
  client_CreateInstallationToken id (mkTokenOptions [] []) w2 = (Served token, w3) ->
  paged (client_ListRepos (GetToken token)) (mkListOptions 0 100) w3 pages w4 ->
  time_Now w4 = (now', w5) ->
  (length pages <= fuel)%nat ->
  exists evs,
    pageTrace (EvListRepos (GetToken token)) (mkListOptions 0 100) evs pages
      Finished /\
    updateRepositories (S depth) fuel owner s =
    (Ok tt,
     mkState (installs s) (installsUpdatedAt s) (updateInterval s)
       (<[i := mkInstallation (ID (deref (heap s) i)) (Owner (deref (heap s) i))
                (newRepository <$> concat pages) now']> (heap s))
       w5
       (calls s ++
        EvCreateInstallationToken id (mkTokenOptions [] []) (Served token) :: evs)).
Proof.
  intros Ei Eid En Hst En2 Hlt Em Hp En' Hle.
  apply After_Add_false in Hst. apply After_Add_true in Hlt.
  assert (CreateInstallationToken (S depth) fuel owner [] [] (set_world w1 s) =
          (Ok token,
           set_world w3
             (log_call
                (EvCreateInstallationToken id (mkTokenOptions [] []) (Served token))
                (set_world w2 (set_world w1 s))))) as Eb.
  { simpl. unfold CreateInstallationToken_body, bind at 1.
    rewrite (getInstallationID_fresh fuel owner (set_world w1 s) now2 w2 En2 Hlt).
    simpl. rewrite Eid. unfold bind, MintToken. simpl. now rewrite Em. }
  destruct (repositoriesLoop_paged fuel (GetToken token) [] (mkListOptions 0 100)
              (set_world w3
                 (log_call
                    (EvCreateInstallationToken id (mkTokenOptions [] [])
                       (Served token))
                    (set_world w2 (set_world w1 s))))
              pages w4 Hp Hle) as (evs & Ht & El).
  exists evs. split; [exact Ht |].
  unfold updateRepositories, updateRepositories_body, bind at 1, get.
  rewrite Ei. unfold bind at 1. rewrite (Now_eq _ _ _ En), Hst.
  unfold bind at 1. rewrite Eb. unfold bind at 1. rewrite El.
  unfold bind, Now, storeRepositories. simpl. rewrite En'. simpl.
  now rewrite <- app_assoc.
Qed.

(** X10.  When the repositories of the owner are stale and the
    installations still fresh, [updateRepositories] asks for one unscoped
    token, for the installation [getInstallationID] finds, and with that
    token for the pages of repositories; it stores them, put together in
    order, with the reading of the clock, in the installation it found,
    and changes nothing else of the cache. *)
Theorem updateRepositories_refresh
  depth fuel owner s i id now w1 now2 w2 token w3 pages w4 now' w5 :
  lastInstallation (heap s) owner None (installs s) = Some i ->
  findInstallationID (heap s) owner (installs s) = Some id ->
  time_Now (world s) = (now, w1) ->
  RepositoriesUpdatedAt (deref (heap s) i) + updateInterval s <= now ->
  time_Now w1 = (now2, w2) ->
  now2 < installsUpdatedAt s + updateInterval s ->
  client_CreateInstallationToken id (mkTokenOptions [] []) w2 = (Served token, w3) ->
  paged (client_ListRepos (GetToken token)) (mkListOptions 0 100) w3 pages w4 ->
  time_Now w4 = (now', w5) ->
  (length pages <= fuel)%nat ->
  exists evs,
    pageTrace (EvListRepos (GetToken token)) (mkListOptions 0 100) evs pages
      Finished /\
    updateRepositories (S depth) fuel owner s =
    (Ok tt,
     mkState (installs s) (installsUpdatedAt s) (updateInterval s)
       (<[i := mkInstallation (ID (deref (heap s) i)) (Owner (deref (heap s) i))
                (newRepository <$> concat pages) now']> (heap s))
       w5
       (calls s ++
        EvCreateInstallationToken id (mkTokenOptions [] []) (Served token) :: evs)).
Proof. apply updateRepositories_refresh_eq. Qed.

(** ** Looking up what was listed *)

Lemma findRepository_newRepository repo (lst : list ghRepository) :
  findRepository repo (newRepository <$> lst) = GetRepoID <$> listedAs repo lst.
Proof.
  induction lst as [| r lst IH]; simpl; [reflexivity |].
  now destruct (decide (GetName r = repo)).
Qed.

Lemma findRepositoryID_only_None h owner repo l i :
  (forall p, p ∈ l -> Owner (deref h p) = owner -> p = i) ->
  findRepository repo (Repositories (deref h i)) = None ->
  findRepositoryID h owner repo l = None.
Proof.
  intros Honly En. induction l as [| p l IH]; simpl; [reflexivity |].
  assert (findRepositoryID h owner repo l = None) as ->.
  { apply IH. intros q Hq. apply Honly. now right. }
  destruct (decide (Owner (deref h p) = owner)) as [E | N]; [| reflexivity].
  rewrite (Honly p ltac:(left) E). now rewrite En.
Qed.

Lemma findRepositoryID_only h owner repo l i :
  (forall p, p ∈ l -> Owner (deref h p) = owner -> p = i) ->
  i ∈ l -> Owner (deref h i) = owner ->
  findRepositoryID h owner repo l = findRepository repo (Repositories (deref h i)).
Proof.
  intros Honly Hin Eo. induction l as [| p l IH]; [now apply elem_of_nil in Hin |].
  simpl. destruct (decide (Owner (deref h p) = owner)) as [E | N].
  - rewrite (Honly p ltac:(left) E).
    destruct (findRepository repo (Repositories (deref h i))) eqn:Ef;
      [reflexivity |].
    apply findRepositoryID_only_None with (i := i); [| exact Ef].
    intros q Hq. apply Honly. now right.
  - apply IH.
    + intros q Hq. apply Honly. now right.
    + apply elem_of_cons in Hin as [-> | Hin]; [contradiction | exact Hin].
Qed.

(** X11.  After a refresh of the repositories on fresh installations,
    when the installation found is the only one of the owner,
    [getRepositoryID] answers from what was listed: the
    identity of the first listed repository of that name, and
    [ErrInstallationNotFound] of [owner/repo] when none has it. *)
Theorem getRepositoryID_after_refresh
  depth fuel owner repo s i id now w1 now2 w2 token w3 pages w4 now' w5 :
  lastInstallation (heap s) owner None (installs s) = Some i ->
  (i < length (heap s))%nat ->
  (forall p, p ∈ installs s -> Owner (deref (heap s) p) = owner -> p = i) ->
  findInstallationID (heap s) owner (installs s) = Some id ->
  time_Now (world s) = (now, w1) ->
  RepositoriesUpdatedAt (deref (heap s) i) + updateInterval s <= now ->
  time_Now w1 = (now2, w2) ->
  now2 < installsUpdatedAt s + updateInterval s ->
  client_CreateInstallationToken id (mkTokenOptions [] []) w2 = (Served token, w3) ->
  paged (client_ListRepos (GetToken token)) (mkListOptions 0 100) w3 pages w4 ->
  time_Now w4 = (now', w5) ->
  (length pages <= fuel)%nat ->
  fst (getRepositoryID (S depth) fuel owner repo s) =
  match listedAs repo (concat pages) with
  | Some r => Ok (GetRepoID r)
  | None => Err (ErrInstallationNotFound (owner +:+ "/" +:+ repo))
  end.
Proof.
  intros Ei Hi Honly Eid En Hst En2 Hlt Em Hp En' Hle.
  destruct (updateRepositories_refresh_eq depth fuel owner s i id _ _ _ _ _ _ _ _ _ _
              Ei Eid En Hst En2 Hlt Em Hp En' Hle) as (evs & _ & Eu).
  apply lastInstallation_Some in Ei as [[Hin Eo] | ?]; [| discriminate].
  unfold getRepositoryID, getRepositoryID_body, bind at 1.
  unfold updateRepositories in Eu. rewrite Eu. unfold bind, get. simpl.
  rewrite (findRepositoryID_only _ _ _ _ i).
  - unfold deref at 1. rewrite list_lookup_insert_eq by exact Hi. simpl.
    rewrite findRepository_newRepository.
    now destruct (listedAs repo (concat pages)).
  - intros p Hp' Eo'. rewrite deref_insert_Owner in Eo'. now apply Honly.
  - exact Hin.
  - now rewrite deref_insert_Owner.
Qed.

End Cache.

(** * The further facts on the scripted world *)

Lemma New_first_call_witness :
  let r := CreateInstallationToken 2 5 "acme" ["infra"] [("metadata", "read")]
             (New acmeWorld) in
  exists p rest,
    calls (snd r) = EvListInstallations (mkListOptions 0 10) p :: rest.
Proof.
  intros r.
  assert (time_Now acmeWorld = (2020 * year, acmeWorld)) as En
    by (vm_compute; reflexivity).
  assert (1 * Minute <= 2020 * year) as Hmin by (vm_compute; discriminate).
  assert (CreateInstallationToken 2 5 "acme" ["infra"] [("metadata", "read")]
            (New acmeWorld) = (fst r, snd r)) as E by (vm_compute; reflexivity).
  exact (New_first_call 1 5 "acme" ["infra"] [("metadata", "read")] acmeWorld
           _ _ (fst r) (snd r) ltac:(discriminate) En Hmin E).
Defined.

Lemma getInstallationID_after_refresh_witness :
  fst (getInstallationID 5 "beta" (staleState twoPages)) = Ok 8.
Proof.
  assert (Forall (fun i => isASCII (GetLogin i) = true)
            (concat [[mkGhInstallation 7 "Acme"; mkGhInstallation 8 "Beta"];
                     [mkGhInstallation 9 "Gamma"]])) as Hascii
    by (repeat constructor).
  assert (time_Now (world (staleState twoPages)) = (2020 * year, twoPages)) as En
    by (vm_compute; reflexivity).
  assert (installsUpdatedAt (staleState twoPages)
          + updateInterval (staleState twoPages) <= 2020 * year) as Hst
    by (vm_compute; discriminate).
  assert (paged client_ListInstallations (mkListOptions 0 10) twoPages
            [[mkGhInstallation 7 "Acme"; mkGhInstallation 8 "Beta"];
             [mkGhInstallation 9 "Gamma"]]
            (mkScript [] (2020 * year) [] [] [])) as Hp.
  { eapply paged_next; [vm_compute; reflexivity | discriminate |].
    eapply paged_last; [vm_compute; reflexivity | reflexivity]. }
  assert (time_Now (mkScript [] (2020 * year) [] [] [])
          = (2020 * year, mkScript [] (2020 * year) [] [] [])) as En'
    by (vm_compute; reflexivity).
  exact (getInstallationID_after_refresh 5 "beta" (staleState twoPages)
           _ _ _ _ _ _ Hascii En Hst Hp En' ltac:(simpl; lia)).
Defined.

Lemma mixed_case_owner_never_served_witness :
  ToLower "Acme" <> "Acme" /\
  forall token,
    fst (CreateInstallationToken 2 5 "Acme" ["infra"] [("metadata", "read")]
           (New acmeWorld)) <> Ok token.
Proof.
  assert (cacheInv (New acmeWorld)) as Hinv
    by (intros p Hp; now apply elem_of_nil in Hp).
  assert (ToLower "Acme" <> "Acme") as Hn by (vm_compute; discriminate).
  assert (CreateInstallationToken 2 5 "Acme" ["infra"] [("metadata", "read")]
            (New acmeWorld) =
          (fst (CreateInstallationToken 2 5 "Acme" ["infra"]
                  [("metadata", "read")] (New acmeWorld)),
           snd (CreateInstallationToken 2 5 "Acme" ["infra"]
                  [("metadata", "read")] (New acmeWorld)))) as E
    by (vm_compute; reflexivity).
  split; [exact Hn |].
  exact (mixed_case_owner_never_served 2 5 "Acme" ["infra"]
           [("metadata", "read")] (New acmeWorld) _ _ Hinv Hn E).
Defined.

Lemma refresh_discards_repositories_witness :
  fst (updateInstallations 5 (staleState twoPages)) = Ok tt /\
  forall p, p ∈ installs (snd (updateInstallations 5 (staleState twoPages))) ->
    Repositories
      (deref (heap (snd (updateInstallations 5 (staleState twoPages)))) p) = [] /\
    RepositoriesUpdatedAt
      (deref (heap (snd (updateInstallations 5 (staleState twoPages)))) p)
    = zeroTime /\
    ToLower
      (Owner (deref (heap (snd (updateInstallations 5 (staleState twoPages)))) p))
    = Owner (deref (heap (snd (updateInstallations 5 (staleState twoPages)))) p).
Proof.
  assert (time_Now (world (staleState twoPages)) = (2020 * year, twoPages)) as En
    by (vm_compute; reflexivity).
  assert (installsUpdatedAt (staleState twoPages)
          + updateInterval (staleState twoPages) <= 2020 * year) as Hst
    by (vm_compute; discriminate).
  assert (updateInstallations 5 (staleState twoPages) =
          (Ok tt, snd (updateInstallations 5 (staleState twoPages)))) as E
    by (vm_compute; reflexivity).
  split; [vm_compute; reflexivity |].
  exact (refresh_discards_repositories 5 (staleState twoPages) _ _ _ En Hst E).
Defined.

Lemma cache_hit_witness :
  CreateInstallationToken 1 5 "acme" ["repoA"; "repoB"; "repoA"]
    [("contents", "read")] cachedState =
  (Ok (mkToken "scoped"),
   set_world (mkScript [] (2020 * year + 1000000000) [] [] [])
     (log_call
        (EvCreateInstallationToken 42
           (mkTokenOptions [1; 2; 1] [("contents", "read")])
           (Served (mkToken "scoped")))
        cachedState)).
Proof.
  assert (time_Now (world cachedState)
          = (2020 * year + 1000000000, world cachedState)) as En
    by (vm_compute; reflexivity).
  assert (2020 * year + 1000000000
          < installsUpdatedAt cachedState + updateInterval cachedState) as Hlt
    by (vm_compute; reflexivity).
  assert (findInstallationID (heap cachedState) "acme" (installs cachedState)
          = Some 42) as Eid by (vm_compute; reflexivity).
  assert (lastInstallation (heap cachedState) "acme" None (installs cachedState)
          = Some 0%nat) as Ei by (vm_compute; reflexivity).
  assert (2020 * year + 1000000000
          < RepositoriesUpdatedAt (deref (heap cachedState) 0%nat)
            + updateInterval cachedState) as Hlt'
    by (vm_compute; reflexivity).
  assert (Forall2 (fun repo rid =>
                     findRepositoryID (heap cachedState) "acme" repo
                       (installs cachedState) = Some rid)
            ["repoA"; "repoB"; "repoA"] [1; 2; 1]) as Hall
    by (repeat constructor; vm_compute; reflexivity).
  assert (client_CreateInstallationToken 42
            (mkTokenOptions [1; 2; 1] [("contents", "read")]) (world cachedState)
          = (Served (mkToken "scoped"),
             mkScript [] (2020 * year + 1000000000) [] [] [])) as Er
    by (vm_compute; reflexivity).
  exact (proj1 (cache_hit 0 5 "acme" ["repoA"; "repoB"; "repoA"]
                  [("contents", "read")] cachedState _ 42 0%nat
                  En Hlt Eid Ei Hlt')
           [1; 2; 1] _ _ Hall Er).
Defined.

Lemma resolution_sound_witness :
  exists p r,
    p ∈ installs (snd (getRepositoryID 1 5 "acme" "repoB" cachedState)) /\
    Owner (deref (heap (snd (getRepositoryID 1 5 "acme" "repoB" cachedState))) p)
    = "acme" /\
    r ∈ Repositories
          (deref (heap (snd (getRepositoryID 1 5 "acme" "repoB" cachedState))) p) /\
    Name r = "repoB" /\ repoID r = 2.
Proof.
  assert (getRepositoryID 1 5 "acme" "repoB" cachedState =
          (Ok 2, snd (getRepositoryID 1 5 "acme" "repoB" cachedState))) as E
    by (vm_compute; reflexivity).
  exact (proj2 (resolution_sound 1 5 "acme" "repoB" cachedState) 2 _ E).
Defined.

Lemma nested_refresh_loses_repositories_witness :
  fst (getRepositoryID 1 5 "acme" "repoA" boundaryState)
  = Err (ErrInstallationNotFound "acme/repoA") /\
  EvListRepos "bootstrap" (mkListOptions 0 100)
    (Served ([mkGhRepository 1 "repoA"], mkResponse 0))
  ∈ calls (snd (getRepositoryID 1 5 "acme" "repoA" boundaryState)).
Proof.
  assert (lastInstallation (heap boundaryState) "acme" None (installs boundaryState)
          = Some 0%nat) as Ei by (vm_compute; reflexivity).
  assert (0 < length (heap boundaryState))%nat as Hi by (vm_compute; lia).
  assert (time_Now (world boundaryState)
          = (2020 * year + 59 * 1000000000,
             mkScript [2020 * year + 61 * 1000000000]
               (2020 * year + 59 * 1000000000)
               [Served ([mkGhInstallation 42 "Acme"], mkResponse 0)]
               [Served (mkToken "bootstrap")]
               [Served ([mkGhRepository 1 "repoA"], mkResponse 0)])) as En
    by (vm_compute; reflexivity).
  assert (RepositoriesUpdatedAt (deref (heap boundaryState) 0%nat)
          + updateInterval boundaryState <= 2020 * year + 59 * 1000000000) as Hst
    by (vm_compute; discriminate).
  assert (time_Now
            (mkScript [2020 * year + 61 * 1000000000]
               (2020 * year + 59 * 1000000000)
               [Served ([mkGhInstallation 42 "Acme"], mkResponse 0)]
               [Served (mkToken "bootstrap")]
               [Served ([mkGhRepository 1 "repoA"], mkResponse 0)])
          = (2020 * year + 61 * 1000000000,
             mkScript [] (2020 * year + 61 * 1000000000)
               [Served ([mkGhInstallation 42 "Acme"], mkResponse 0)]
               [Served (mkToken "bootstrap")]
               [Served ([mkGhRepository 1 "repoA"], mkResponse 0)])) as En2
    by (vm_compute; reflexivity).
  assert (installsUpdatedAt boundaryState + updateInterval boundaryState
          <= 2020 * year + 61 * 1000000000) as Hst2
    by (vm_compute; discriminate).
  assert (updateRepositories 1 5 "acme" boundaryState =
          (Ok tt, snd (updateRepositories 1 5 "acme" boundaryState))) as E
    by (vm_compute; reflexivity).
  destruct (proj1 (nested_refresh_loses_repositories 0 5 "acme" "repoA"
                     boundaryState 0%nat _ _ _ _ Ei Hi En Hst En2 Hst2) _ E)
    as (_ & _ & Eg).
  split; [now rewrite Eg |].
  vm_compute. apply list_elem_of_In. simpl. tauto.
Defined.

Lemma CreateInstallationToken_errors_witness :
  expectedError "acme" ["repoA"; "ghost"] (ErrInstallationNotFound "acme/ghost").
Proof.
  assert (CreateInstallationToken 2 5 "acme" ["repoA"; "ghost"]
            [("contents", "read")] cachedState =
          (Err (ErrInstallationNotFound "acme/ghost"),
           snd (CreateInstallationToken 2 5 "acme" ["repoA"; "ghost"]
                  [("contents", "read")] cachedState))) as E
    by (vm_compute; reflexivity).
  exact (CreateInstallationToken_errors 2 5 "acme" ["repoA"; "ghost"]
           [("contents", "read")] cachedState _ _ E).
Defined.

Lemma cache_invariant_witness :
  let r := CreateInstallationToken 2 5 "acme" ["infra"] [("metadata", "read")]
             (New acmeWorld) in
  cacheInv (snd r).
Proof.
  intros r.
  assert (CreateInstallationToken 2 5 "acme" ["infra"] [("metadata", "read")]
            (New acmeWorld) = (fst r, snd r)) as E by (vm_compute; reflexivity).
  destruct (cache_invariant 2 5 "acme" ["infra"] [("metadata", "read")]
              (New acmeWorld) (fst r) (snd r) acmeWorld) as [Hnew Hkeep].
  exact (Hkeep Hnew E).
Defined.

Lemma updateRepositories_refresh_witness :
  exists evs,
    pageTrace (EvListRepos "bootstrap") (mkListOptions 0 100) evs
      [[mkGhRepository 100 "infra"]] Finished /\
    updateRepositories 1 5 "acme" (snd (getInstallationID 5 "acme" (New acmeWorld)))
    = (Ok tt,
       mkState [0%nat] (2020 * year) (1 * Minute)
         [mkInstallation 7 "acme" [mkRepository 100 "infra"] (2020 * year)]
         (mkScript [] (2020 * year) [] [Served (mkToken "scoped")] [])
         (calls (snd (getInstallationID 5 "acme" (New acmeWorld))) ++
          EvCreateInstallationToken 7 (mkTokenOptions [] [])
            (Served (mkToken "bootstrap")) :: evs)).
Proof.
  set (s := snd (getInstallationID 5 "acme" (New acmeWorld))).
  assert (lastInstallation (heap s) "acme" None (installs s) = Some 0%nat) as Ei
    by (vm_compute; reflexivity).
  assert (findInstallationID (heap s) "acme" (installs s) = Some 7) as Eid
    by (vm_compute; reflexivity).
  assert (time_Now (world s) = (2020 * year, world s)) as En
    by (vm_compute; reflexivity).
  assert (RepositoriesUpdatedAt (deref (heap s) 0%nat) + updateInterval s
          <= 2020 * year) as Hst by (vm_compute; discriminate).
  assert (2020 * year < installsUpdatedAt s + updateInterval s) as Hlt
    by (vm_compute; reflexivity).
  assert (client_CreateInstallationToken 7 (mkTokenOptions [] []) (world s)
          = (Served (mkToken "bootstrap"),
             mkScript [] (2020 * year) [] [Served (mkToken "scoped")]
               [Served ([mkGhRepository 100 "infra"], mkResponse 0)])) as Em
    by (vm_compute; reflexivity).
  assert (paged (client_ListRepos "bootstrap") (mkListOptions 0 100)
            (mkScript [] (2020 * year) [] [Served (mkToken "scoped")]
               [Served ([mkGhRepository 100 "infra"], mkResponse 0)])
            [[mkGhRepository 100 "infra"]]
            (mkScript [] (2020 * year) [] [Served (mkToken "scoped")] [])) as Hp
    by (eapply paged_last; [vm_compute; reflexivity | reflexivity]).
  assert (time_Now (mkScript [] (2020 * year) [] [Served (mkToken "scoped")] [])
          = (2020 * year,
             mkScript [] (2020 * year) [] [Served (mkToken "scoped")] [])) as En'
    by (vm_compute; reflexivity).
  exact (updateRepositories_refresh 0 5 "acme" s 0%nat 7 _ _ _ _
           (mkToken "bootstrap") _ _ _ _ _
           Ei Eid En Hst En Hlt Em Hp En' ltac:(simpl; lia)).
Defined.

Lemma getRepositoryID_after_refresh_witness :
  fst (getRepositoryID 1 5 "acme" "infra"
         (snd (getInstallationID 5 "acme" (New acmeWorld)))) = Ok 100.
Proof.
  set (s := snd (getInstallationID 5 "acme" (New acmeWorld))).
  assert (lastInstallation (heap s) "acme" None (installs s) = Some 0%nat) as Ei
    by (vm_compute; reflexivity).
  assert (0 < length (heap s))%nat as Hi by (vm_compute; lia).
  assert (forall p, p ∈ installs s -> Owner (deref (heap s) p) = "acme" ->
            p = 0%nat) as Honly.
  { intros p Hp _. vm_compute in Hp. now apply list_elem_of_singleton in Hp. }
  assert (findInstallationID (heap s) "acme" (installs s) = Some 7) as Eid
    by (vm_compute; reflexivity).
  assert (time_Now (world s) = (2020 * year, world s)) as En
    by (vm_compute; reflexivity).
  assert (RepositoriesUpdatedAt (deref (heap s) 0%nat) + updateInterval s
          <= 2020 * year) as Hst by (vm_compute; discriminate).
  assert (2020 * year < installsUpdatedAt s + updateInterval s) as Hlt
    by (vm_compute; reflexivity).
  assert (client_CreateInstallationToken 7 (mkTokenOptions [] []) (world s)
          = (Served (mkToken "bootstrap"),
             mkScript [] (2020 * year) [] [Served (mkToken "scoped")]
               [Served ([mkGhRepository 100 "infra"], mkResponse 0)])) as Em
    by (vm_compute; reflexivity).
  assert (paged (client_ListRepos "bootstrap") (mkListOptions 0 100)
            (mkScript [] (2020 * year) [] [Served (mkToken "scoped")]
               [Served ([mkGhRepository 100 "infra"], mkResponse 0)])
            [[mkGhRepository 100 "infra"]]
            (mkScript [] (2020 * year) [] [Served (mkToken "scoped")] [])) as Hp
    by (eapply paged_last; [vm_compute; reflexivity | reflexivity]).
  assert (time_Now (mkScript [] (2020 * year) [] [Served (mkToken "scoped")] [])
          = (2020 * year,
             mkScript [] (2020 * year) [] [Served (mkToken "scoped")] [])) as En'
    by (vm_compute; reflexivity).
  exact (getRepositoryID_after_refresh 0 5 "acme" "infra" s 0%nat 7 _ _ _ _
           (mkToken "bootstrap") _ _ _ _ _
           Ei Hi Honly Eid En Hst En Hlt Em Hp En' ltac:(simpl; lia)).
Defined.

(** * Pagination without end *)

Section Endless.

Context {W : Type} `{Collaborators W}.

Lemma installationsLoop_endless fuel (l : list ptr) opt (s : State W) :
  (forall opt0 w, exists lst response w',
     client_ListInstallations opt0 w = (Served (lst, response), w') /\
     NextPage response <> 0) ->
  fst (installationsLoop fuel l opt s) = Halt OutOfFuel.
Proof.
  intros Hnext. revert l opt s.
  induction fuel as [| fuel IH]; intros l opt s; simpl; [reflexivity |].
  unfold bind at 1. unfold ListInstallations.
  destruct (Hnext opt (world s)) as (lst & response & w' & Ef & Hn).
  rewrite Ef. unfold bind at 1. rewrite appendInstallations_spec.
  apply Z.eqb_neq in Hn. rewrite Hn. apply IH.
Qed.

(** X12.  The page loop has no bound of its own: against a remote that
    names a further page after every page of installations, a refresh
    that is due does not return, whatever the fuel, and the list of
    installations and its timestamp stay as they were. *)
Theorem endless_pagination_never_returns fuel (s : State W) now w1 :
  (forall opt w, exists lst response w',
     client_ListInstallations opt w = (Served (lst, response), w') /\
     NextPage response <> 0) ->
  time_Now (world s) = (now, w1) ->
  installsUpdatedAt s + updateInterval s <= now ->
  fst (updateInstallations fuel s) = Halt OutOfFuel /\
  installs (snd (updateInstallations fuel s)) = installs s /\
  installsUpdatedAt (snd (updateInstallations fuel s)) = installsUpdatedAt s.
Proof.
  intros Hnext En Hst. apply After_Add_false in Hst.
  pose proof (installationsLoop_endless fuel [] (mkListOptions 0 10)
                (set_world w1 s) Hnext) as Hl.
  destruct (updateInstallations fuel s) as [o s'] eqn:E.
  destruct (updateInstallations_stale _ _ _ _ _ _ En Hst E)
    as (evs & pages & e & w2 & _ & _ & _ & _ & _ & He).
  assert (o = Halt OutOfFuel) as ->.
  { unfold updateInstallations, bind at 1, get in E. unfold bind at 1 in E.
    rewrite (Now_eq _ _ _ En), Hst in E. unfold bind at 1 in E.
    destruct (installationsLoop fuel [] (mkListOptions 0 10) (set_world w1 s))
      as [o1 s1].
    simpl in Hl. subst o1. now injection E as <- _. }
  simpl. split; [reflexivity |].
  destruct e.
  - destruct He as (now' & _ & ? & _). discriminate.
  - now destruct He as (? & _).
  - now destruct He as (_ & ? & ? & _).
Qed.

Lemma updateInstallations_endless fuel (s : State W) now w1 :
  (forall opt w, exists lst response w',
     client_ListInstallations opt w = (Served (lst, response), w') /\
     NextPage response <> 0) ->
  time_Now (world s) = (now, w1) ->
  installsUpdatedAt s + updateInterval s <= now ->
  exists s', updateInstallations fuel s = (Halt OutOfFuel, s').
Proof.
  intros Hnext En Hst. apply After_Add_false in Hst.
  pose proof (installationsLoop_endless fuel [] (mkListOptions 0 10)
                (set_world w1 s) Hnext) as Hl.
  unfold updateInstallations, bind at 1, get. unfold bind at 1.
  rewrite (Now_eq _ _ _ En), Hst. unfold bind at 1.
  destruct (installationsLoop fuel [] (mkListOptions 0 10) (set_world w1 s))
    as [o1 s1].
  simpl in Hl. subst o1. now exists s1.
Qed.

End Endless.

(** C4, as stated, fails: every call of this remote returns, with a page
    that names a further page, and [CreateInstallationToken] does not
    return, whatever the fuel and the depth. *)
Lemma endless_listing_never_returns :
  (forall opt w,
     @client_ListInstallations unit endless opt w
     = (Served ([], mkResponse 1), w)) /\
  forall depth fuel,
    fst (@CreateInstallationToken unit endless (S depth) fuel "acme" [] []
           (New tt)) = Halt OutOfFuel.
Proof.
  split; [reflexivity |]. intros depth fuel.
  destruct (@updateInstallations_endless unit endless fuel (New tt)
              (2020 * year) tt) as [s' Eu].
  - intros opt w. exists [], (mkResponse 1), w.
    split; [reflexivity | discriminate].
  - reflexivity.
  - vm_compute. discriminate.
  - simpl. unfold CreateInstallationToken_body, getInstallationID.
    unfold bind at 1. unfold bind at 1. now rewrite Eu.
Qed.

Lemma endless_pagination_never_returns_witness :
  fst (@updateInstallations unit endless 1000 (New tt)) = Halt OutOfFuel /\
  installs (snd (@updateInstallations unit endless 1000 (New tt))) = [] /\
  installsUpdatedAt (snd (@updateInstallations unit endless 1000 (New tt)))
  = zeroTime.
Proof.
  assert (forall opt w, exists lst response w',
            @client_ListInstallations unit endless opt w
            = (Served (lst, response), w') /\
            NextPage response <> 0) as Hnext.
  { intros opt w. exists [], (mkResponse 1), w. split; [reflexivity | discriminate]. }
  assert (@time_Now unit endless (world (New tt)) = (2020 * year, tt)) as En
    by reflexivity.
  assert (installsUpdatedAt (New tt) + updateInterval (New tt) <= 2020 * year)
    as Hst by (vm_compute; discriminate).
  exact (@endless_pagination_never_returns unit endless 1000 (New tt) _ _
           Hnext En Hst).
Defined.
